(** * moody-backend: the playlist service

    A shallow embedding of [src/services/playlistService.ts] and of the
    methods of [src/services/spotifyService.ts] it calls, with the
    properties of the mood-to-playlist core.

    Conventions of the embedding:
    - a JavaScript number that comes from JSON or from the profile table is
      an exact rational ([Q]); the results of arithmetic are values of
      [JS.number], rationals extended with the two infinities and NaN, so
      that division by zero behaves as in the source. Rounding of binary
      floating point is not modelled;
    - [Math.random] reads a stream [random : nat -> Q]; the position in the
      stream is part of the state;
    - asynchronous methods run in the monad [M]: state passing over a
      [World] (position in the random stream, HTTP requests sent, console
      output) with exceptions;
    - the Spotify Web API is an oracle [WebApi]: for each request, the
      response, or [None] when the request fails;
    - a property read on the object literal [moodProfiles] looks at the own
      properties first and at those of [Object.prototype] next. *)

From Stdlib Require Import QArith Qminmax Qround Qabs Lqa Lia ZArith.
From Stdlib Require Import List String Bool Permutation Sorted.
Import ListNotations.

Local Open Scope Q_scope.

(** ** JavaScript numbers *)

Module JS.

Inductive number : Type :=
| Num (q : Q)
| Infinity
| NegInfinity
| NaN.

(** The infinity with the sign of [a]; [0 * Infinity] and [0 / 0] are NaN. *)
Definition signed_infinity (a : Q) : number :=
  match a ?= 0 with
  | Gt => Infinity
  | Lt => NegInfinity
  | Eq => NaN
  end.

Definition add (x y : number) : number :=
  match x, y with
  | NaN, _ | _, NaN => NaN
  | Num a, Num b => Num (a + b)
  | Infinity, NegInfinity | NegInfinity, Infinity => NaN
  | Infinity, _ | _, Infinity => Infinity
  | NegInfinity, _ | _, NegInfinity => NegInfinity
  end.

Definition neg (x : number) : number :=
  match x with
  | Num a => Num (- a)
  | Infinity => NegInfinity
  | NegInfinity => Infinity
  | NaN => NaN
  end.

Definition sub (x y : number) : number := add x (neg y).

Definition mul (x y : number) : number :=
  match x, y with
  | NaN, _ | _, NaN => NaN
  | Num a, Num b => Num (a * b)
  | Num a, Infinity | Infinity, Num a => signed_infinity a
  | Num a, NegInfinity | NegInfinity, Num a => signed_infinity (- a)
  | Infinity, Infinity | NegInfinity, NegInfinity => Infinity
  | Infinity, NegInfinity | NegInfinity, Infinity => NegInfinity
  end.

(** Division; a rational zero is the positive zero. *)
Definition div (x y : number) : number :=
  match x, y with
  | NaN, _ | _, NaN => NaN
  | Num a, Num b => if Qeq_bool b 0 then signed_infinity a else Num (a / b)
  | Num _, _ => Num 0
  | Infinity, Num b => if Qle_bool 0 b then Infinity else NegInfinity
  | NegInfinity, Num b => if Qle_bool 0 b then NegInfinity else Infinity
  | _, _ => NaN
  end.

(** [Math.abs], [Math.max], [Math.min]. *)
Definition abs (x : number) : number :=
  match x with
  | Num a => Num (Qabs a)
  | Infinity | NegInfinity => Infinity
  | NaN => NaN
  end.

Definition max (x y : number) : number :=
  match x, y with
  | NaN, _ | _, NaN => NaN
  | Infinity, _ | _, Infinity => Infinity
  | NegInfinity, z | z, NegInfinity => z
  | Num a, Num b => Num (Qmax a b)
  end.

Definition min (x y : number) : number :=
  match x, y with
  | NaN, _ | _, NaN => NaN
  | NegInfinity, _ | _, NegInfinity => NegInfinity
  | Infinity, z | z, Infinity => z
  | Num a, Num b => Num (Qmin a b)
  end.

(** [x > y]; false as soon as one side is NaN. *)
Definition gt (x y : number) : bool :=
  match x, y with
  | NaN, _ | _, NaN => false
  | Num a, Num b => negb (Qle_bool a b)
  | Infinity, Infinity => false
  | Infinity, _ => true
  | _, NegInfinity => match x with NegInfinity => false | _ => true end
  | _, _ => false
  end.

(** Truthiness of a number: everything but 0 and NaN. *)
Definition truthy (x : Q) : bool := negb (Qeq_bool x 0).

End JS.

Import JS.

(** ** Data model ([types/index.ts]) *)

(** The four audio features the playlist service reads. *)
Inductive Feature : Type := energy | valence | danceability | tempo.

(** An object with (some of) the four feature properties: a
    [SpotifyAudioFeatures] record of the Web API, or the target object built
    by [calculateTargetFeatures]. [None] is a property that is [undefined]. *)
Record Features : Type := mkFeatures {
  f_energy : option Q;
  f_valence : option Q;
  f_danceability : option Q;
  f_tempo : option Q
}.

(** [obj[feature]] *)
Definition prop (obj : Features) (feature : Feature) : option Q :=
  match feature with
  | energy => f_energy obj
  | valence => f_valence obj
  | danceability => f_danceability obj
  | tempo => f_tempo obj
  end.

Record Range : Type := mkRange { min : Q; max : Q }.

Record AudioFeatureRanges : Type := mkRanges {
  r_energy : Range;
  r_valence : Range;
  r_danceability : Range;
  r_tempo : Range
}.

Definition range_of (rs : AudioFeatureRanges) (feature : Feature) : Range :=
  match feature with
  | energy => r_energy rs
  | valence => r_valence rs
  | danceability => r_danceability rs
  | tempo => r_tempo rs
  end.

Record MoodMusicProfile : Type := mkProfile {
  genres : list string;
  audioFeatures : AudioFeatureRanges;
  keywords : list string
}.

Record Emotions : Type := mkEmotions {
  e_happy : Q; e_sad : Q; e_energetic : Q;
  e_calm : Q; e_anxious : Q; e_nostalgic : Q
}.

Record MoodAnalysis : Type := mkMood {
  primaryEmotion : string;
  emotions : Emotions;
  confidence : Q;
  rawText : string
}.

(** Of a track the service reads [id] only; the other properties travel
    with the record unchanged. *)
Record SpotifyTrack : Type := mkTrack {
  id : string;
  name : string;
  duration_ms : Z
}.

(** ** The mood profile table *)

Local Open Scope string_scope.

Definition profile_happy : MoodMusicProfile :=
  {| genres := ["pop"; "dance"; "funk"; "disco"; "reggae"];
     audioFeatures :=
       {| r_energy := mkRange 0.6 1.0;
          r_valence := mkRange 0.6 1.0;
          r_danceability := mkRange 0.5 1.0;
          r_tempo := mkRange 100 180 |};
     keywords := ["upbeat"; "positive"; "celebration"; "sunshine"; "party"] |}.

Definition profile_sad : MoodMusicProfile :=
  {| genres := ["indie"; "alternative"; "folk"; "blues"; "singer-songwriter"];
     audioFeatures :=
       {| r_energy := mkRange 0.0 0.5;
          r_valence := mkRange 0.0 0.4;
          r_danceability := mkRange 0.0 0.5;
          r_tempo := mkRange 60 100 |};
     keywords := ["melancholy"; "heartbreak"; "rain"; "alone"; "emotional"] |}.

Definition profile_energetic : MoodMusicProfile :=
  {| genres := ["rock"; "electronic"; "hip-hop"; "punk"; "metal"];
     audioFeatures :=
       {| r_energy := mkRange 0.7 1.0;
          r_valence := mkRange 0.4 1.0;
          r_danceability := mkRange 0.6 1.0;
          r_tempo := mkRange 120 200 |};
     keywords := ["workout"; "adrenaline"; "power"; "intense"; "drive"] |}.

Definition profile_calm : MoodMusicProfile :=
  {| genres := ["ambient"; "classical"; "new-age"; "lo-fi"; "acoustic"];
     audioFeatures :=
       {| r_energy := mkRange 0.0 0.4;
          r_valence := mkRange 0.3 0.7;
          r_danceability := mkRange 0.0 0.4;
          r_tempo := mkRange 60 100 |};
     keywords := ["peaceful"; "meditation"; "sleep"; "nature"; "zen"] |}.

Definition profile_anxious : MoodMusicProfile :=
  {| genres := ["indie-rock"; "alternative"; "electronic"; "experimental"];
     audioFeatures :=
       {| r_energy := mkRange 0.3 0.7;
          r_valence := mkRange 0.2 0.6;
          r_danceability := mkRange 0.3 0.7;
          r_tempo := mkRange 80 140 |};
     keywords := ["restless"; "uncertainty"; "tension"; "introspective"] |}.

Definition profile_nostalgic : MoodMusicProfile :=
  {| genres := ["oldies"; "classic-rock"; "soul"; "jazz"; "country"];
     audioFeatures :=
       {| r_energy := mkRange 0.2 0.7;
          r_valence := mkRange 0.3 0.8;
          r_danceability := mkRange 0.3 0.7;
          r_tempo := mkRange 70 130 |};
     keywords := ["memories"; "vintage"; "throwback"; "classic"; "timeless"] |}.

(** The own properties of the object literal [moodProfiles], in order. *)
Definition moodProfiles : list (string * MoodMusicProfile) :=
  [ ("happy", profile_happy);
    ("sad", profile_sad);
    ("energetic", profile_energetic);
    ("calm", profile_calm);
    ("anxious", profile_anxious);
    ("nostalgic", profile_nostalgic) ].

(** [moodProfiles] is an object literal, so its prototype is
    [Object.prototype]: a property read [moodProfiles[key]] that finds no own
    property continues there. These are the properties of [Object.prototype];
    each holds a function or an object, hence a truthy value. *)
Definition Object_prototype : list string :=
  [ "constructor"; "__defineGetter__"; "__defineSetter__"; "hasOwnProperty";
    "__lookupGetter__"; "__lookupSetter__"; "isPrototypeOf";
    "propertyIsEnumerable"; "toString"; "valueOf"; "__proto__";
    "toLocaleString" ].

(** The value of a property read on [moodProfiles]. *)
Inductive ProfileValue : Type :=
| Profile (p : MoodMusicProfile)   (* an own property: a profile *)
| Inherited (key : string)         (* a member of [Object.prototype] *)
| Undefined.

Fixpoint assoc {A : Type} (key : string) (l : list (string * A)) : option A :=
  match l with
  | [] => None
  | (k, v) :: l' => if String.eqb key k then Some v else assoc key l'
  end.

(** [this.moodProfiles[key]] *)
Definition moodProfiles_get (key : string) : ProfileValue :=
  match assoc key moodProfiles with
  | Some p => Profile p
  | None =>
      if existsb (String.eqb key) Object_prototype then Inherited key
      else Undefined
  end.

Local Close Scope string_scope.

(** ** The track scorer *)

(** [const weights = { energy: 0.3, valence: 0.3, danceability: 0.2,
    tempo: 0.2 }], as [Object.entries] lists it. *)
Definition weights : list (Feature * Q) :=
  [ (energy, 0.3); (valence, 0.3); (danceability, 0.2); (tempo, 0.2) ].

(** The body of the [if] in the loop of [calculateTrackScore]: the score of
    one feature present on both sides. *)
Definition featureScore (feature : Feature) (actual target : Q) : number :=
  match feature with
  | tempo =>
      let diff := JS.abs (JS.sub (Num actual) (Num target)) in
      let percentDiff := JS.div diff (Num target) in
      JS.max (Num 0) (JS.sub (Num 1) percentDiff)
  | _ =>
      let diff := JS.abs (JS.sub (Num actual) (Num target)) in
      JS.max (Num 0) (JS.sub (Num 1) diff)
  end.

(** One iteration of the loop, on the pair [(totalScore, totalWeight)]. *)
Definition scoreStep (actualFeatures targetFeatures : Features)
    (acc : number * number) (entry : Feature * Q) : number * number :=
  let '(totalScore, totalWeight) := acc in
  let '(feature, weight) := entry in
  match prop actualFeatures feature, prop targetFeatures feature with
  | Some a, Some t =>
      let score := featureScore feature a t in
      (JS.add totalScore (JS.mul score (Num weight)),
       JS.add totalWeight (Num weight))
  | _, _ => acc
  end.

Definition calculateTrackScore (actualFeatures targetFeatures : Features)
    : number :=
  let '(totalScore, totalWeight) :=
    fold_left (scoreStep actualFeatures targetFeatures) weights (Num 0, Num 0)
  in
  if JS.gt totalWeight (Num 0) then JS.div totalScore totalWeight else Num 0.

(** ** Effects: exceptions, the console, HTTP requests, [Math.random] *)

Inductive error : Type :=
| Error (message : string)
| TypeError (message : string).

Definition message_of (e : error) : string :=
  match e with
  | Error m => m
  | TypeError m => ("TypeError: " ++ m)%string
  end.

Inductive result (A : Type) : Type :=
| Ok (a : A)
| Throw (e : error).

Arguments Ok {A} a.
Arguments Throw {A} e.

(** The query parameters of [GET /recommendations]. *)
Record RecommendationParams : Type := mkParams {
  seed_genres : string;
  limit : Z;
  market : string;
  target_energy : option Q;
  target_valence : option Q;
  target_danceability : option Q;
  target_tempo : option Q
}.

(** The requests the Spotify service sends through axios. *)
Inductive Request : Type :=
| GetAvailableGenreSeeds (token : string)
| GetRecommendations (token : string) (params : RecommendationParams)
| GetAudioFeatures (token : string) (ids : string)
| PostPlaylist (token userId name description : string) (isPublic : bool)
| PostPlaylistTracks (token playlistId : string) (uris : list string)
| GetSearch (token q : string) (limit : Z).

(** The playlist object of the Web API, as far as the service reads it. *)
Record Playlist : Type := mkPlaylist {
  pl_id : string;
  pl_name : string;
  pl_description : string;
  pl_external_urls : string
}.

Record GeneratedPlaylist : Type := mkGenerated {
  g_id : string;
  g_name : string;
  g_description : string;
  g_tracks : list SpotifyTrack;
  g_external_urls : string
}.

(** The Web API: the response to each request, [None] when the request
    fails. An entry of [audio_features] is [None] where the API answers
    [null] for a track. *)
Record WebApi : Type := mkApi {
  available_genre_seeds : string -> option (list string);
  recommendations :
    string -> RecommendationParams -> option (list SpotifyTrack);
  audio_features : string -> string -> option (list (option Features));
  create_playlist :
    string -> string -> string -> string -> bool -> option Playlist;
  add_tracks : string -> string -> list string -> option unit;
  search : string -> string -> Z -> option (list SpotifyTrack)
}.

Record World : Type := mkWorld {
  random_pos : nat;            (* draws of [Math.random] so far *)
  requests : list Request;     (* HTTP requests sent, oldest first *)
  console : list string        (* lines written to the console *)
}.

Definition M (A : Type) : Type := World -> result A * World.

Definition ret {A : Type} (a : A) : M A := fun w => (Ok a, w).

Definition bind {A B : Type} (c : M A) (k : A -> M B) : M B :=
  fun w =>
    match c w with
    | (Ok a, w') => k a w'
    | (Throw e, w') => (Throw e, w')
    end.

Definition throw {A : Type} (e : error) : M A := fun w => (Throw e, w).

(** [try { body } catch (error) { handler }] *)
Definition try_catch {A : Type} (body : M A) (handler : error -> M A) : M A :=
  fun w =>
    match body w with
    | (Ok a, w') => (Ok a, w')
    | (Throw e, w') => handler e w'
    end.

Declare Scope js_scope.
Delimit Scope js_scope with js.
Notation "x <- c ;; k" := (bind c (fun x => k))
  (at level 61, c at next level, right associativity) : js_scope.
Notation "c ;;; k" := (bind c (fun _ => k))
  (at level 61, right associativity) : js_scope.

Definition console_log (line : string) : M unit :=
  fun w =>
    (Ok tt, {| random_pos := random_pos w;
               requests := requests w;
               console := console w ++ [line] |}).

(** [console.error(label, error)] and [console.warn(label, error)] *)
Definition console_error (label : string) (e : error) : M unit :=
  console_log (label ++ " " ++ message_of e)%string.

(** An axios call: the request is sent, then the promise resolves with the
    response or rejects. *)
Definition axios {A : Type} (r : Request) (response : option A) : M A :=
  fun w =>
    let w' := {| random_pos := random_pos w;
                 requests := requests w ++ [r];
                 console := console w |} in
    match response with
    | Some a => (Ok a, w')
    | None => (Throw (Error "Request failed"), w')
    end.

Section Service.

(** The values [Math.random()] returns, in the order of the calls. *)
Variable random : nat -> Q.

Variable api : WebApi.

(** [new Date().toLocaleDateString()] *)
Variable today : string.

Definition Math_random : M Q :=
  fun w =>
    (Ok (random (random_pos w)),
     {| random_pos := S (random_pos w);
        requests := requests w;
        console := console w |}).

Local Open Scope js_scope.
Local Open Scope string_scope.

(** ** [SpotifyService] *)

Definition searchTracks (accessToken query : string) (limit : Z)
    : M (list SpotifyTrack) :=
  try_catch
    (axios (GetSearch accessToken query limit)
       (search api accessToken query limit))
    (fun e =>
       console_error "Error searching tracks:" e ;;;
       throw (Error "Failed to search tracks")).

Definition non_null {A : Type} (x : option A) : bool :=
  match x with Some _ => true | None => false end.

Definition getAudioFeatures (accessToken : string) (trackIds : list string)
    : M (list (option Features)) :=
  try_catch
    (let ids := String.concat "," trackIds in
     audio_features_ <- axios (GetAudioFeatures accessToken ids)
                          (audio_features api accessToken ids) ;;
     ret (filter non_null audio_features_))
    (fun e =>
       console_error "Error getting audio features:" e ;;;
       throw (Error "Failed to get audio features")).

Definition createPlaylist (accessToken userId name_ description : string)
    (isPublic : bool) : M Playlist :=
  try_catch
    (axios (PostPlaylist accessToken userId name_ description isPublic)
       (create_playlist api accessToken userId name_ description isPublic))
    (fun e =>
       console_error "Error creating playlist:" e ;;;
       throw (Error "Failed to create playlist")).

Definition addTracksToPlaylist (accessToken playlistId : string)
    (trackUris : list string) : M unit :=
  try_catch
    (axios (PostPlaylistTracks accessToken playlistId trackUris)
       (add_tracks api accessToken playlistId trackUris))
    (fun e =>
       console_error "Error adding tracks to playlist:" e ;;;
       throw (Error "Failed to add tracks to playlist")).

(** [if (audioFeatures.x) params.target_x = audioFeatures.x] *)
Definition if_truthy (x : option Q) : option Q :=
  match x with
  | Some q => if JS.truthy q then Some q else None
  | None => None
  end.

Definition getRecommendations (accessToken : string)
    (seedGenres : list string) (audioFeatures_ : Features) (limit_ : Z)
    : M (list SpotifyTrack) :=
  try_catch
    (let params :=
       {| seed_genres := String.concat "," (firstn 5 seedGenres);
          limit := limit_;
          market := "US";
          target_energy := if_truthy (f_energy audioFeatures_);
          target_valence := if_truthy (f_valence audioFeatures_);
          target_danceability := if_truthy (f_danceability audioFeatures_);
          target_tempo := if_truthy (f_tempo audioFeatures_) |} in
     axios (GetRecommendations accessToken params)
       (recommendations api accessToken params))
    (fun e =>
       console_error "Error getting recommendations:" e ;;;
       throw (Error "Failed to get recommendations")).

Definition getAvailableGenres (accessToken : string) : M (list string) :=
  try_catch
    (axios (GetAvailableGenreSeeds accessToken)
       (available_genre_seeds api accessToken))
    (fun e =>
       console_error "Error getting available genres:" e ;;;
       ret []).

(** ** [PlaylistService] *)

(** The constants [midpoint] and [variance] of [getTargetValue]. *)
Definition midpoint (range : Range) : Q := (min range + max range) / 2.

Definition variance (range : Range) (strictness : Q) : Q :=
  (max range - min range) * (1 - strictness) * 0.5.

(** [getTargetValue], given the value [r] that [Math.random()] returns. *)
Definition targetValue (range : Range) (strictness r : Q) : Q :=
  Qmax (min range)
    (Qmin (max range)
       (midpoint range + (r - 0.5) * variance range strictness * 2)).

Definition getTargetValue (range : Range) (strictness : Q) : M Q :=
  r <- Math_random ;;
  ret (targetValue range strictness r).

Definition calculateTargetFeatures (profileFeatures : AudioFeatureRanges)
    (confidence_ : Q) : M Features :=
  let strictness := Qmax 0.3 confidence_ in
  e <- getTargetValue (r_energy profileFeatures) strictness ;;
  v <- getTargetValue (r_valence profileFeatures) strictness ;;
  d <- getTargetValue (r_danceability profileFeatures) strictness ;;
  t <- getTargetValue (r_tempo profileFeatures) strictness ;;
  ret {| f_energy := Some e;
         f_valence := Some v;
         f_danceability := Some d;
         f_tempo := Some t |}.

Record ScoredTrack : Type := mkScored {
  track : SpotifyTrack;
  score : number
}.

(** The callback of [tracks.map((track, index) => ...)]; [audioFeatures[index]]
    is [undefined] past the end of the array, and [!features] holds for
    [null] and for [undefined]. *)
Definition scoreTrack (audioFeatures_ : list (option Features))
    (targetFeatures : Features) (index : nat) (track_ : SpotifyTrack)
    : ScoredTrack :=
  match nth_error audioFeatures_ index with
  | Some (Some features) =>
      {| track := track_;
         score := calculateTrackScore features targetFeatures |}
  | _ => {| track := track_; score := Num 0 |}
  end.

(** [array.map((x, index) => f(index, x))], from index [i] on. *)
Fixpoint mapi {A B : Type} (f : nat -> A -> B) (i : nat) (l : list A)
    : list B :=
  match l with
  | [] => []
  | x :: l' => f i x :: mapi f (S i) l'
  end.

Definition scoreTracks (tracks : list SpotifyTrack)
    (audioFeatures_ : list (option Features)) (targetFeatures : Features)
    : list ScoredTrack :=
  mapi (scoreTrack audioFeatures_ targetFeatures) 0 tracks.

(** The comparator [(a, b) => b.score - a.score]. *)
Definition comparefn (a b : ScoredTrack) : number :=
  JS.sub (score b) (score a).

(** [Array.prototype.sort] is stable, and places [a] after [b] when
    [comparefn(a, b) > 0]; a comparator result of NaN counts as 0. For a
    consistent comparator every stable sort returns the same array; the
    model is insertion sort. *)
Fixpoint insert (x : ScoredTrack) (l : list ScoredTrack) : list ScoredTrack :=
  match l with
  | [] => [x]
  | y :: l' =>
      if JS.gt (comparefn x y) (Num 0) then y :: insert x l'
      else x :: y :: l'
  end.

Fixpoint sort (l : list ScoredTrack) : list ScoredTrack :=
  match l with
  | [] => []
  | x :: l' => insert x (sort l')
  end.

(** [array[i] = x] for [i] within the array. *)
Fixpoint set_nth {A : Type} (i : nat) (x : A) (l : list A) : list A :=
  match l, i with
  | [], _ => []
  | _ :: l', O => x :: l'
  | y :: l', S i' => y :: set_nth i' x l'
  end.

(** [[array[i], array[j]] = [array[j], array[i]]]. [Math.random()] lies in
    [0, 1), which keeps [j] within [0, i]; only such indices are modelled,
    and the array is left as it is for any other. *)
Definition swap {A : Type} (i j : nat) (array : list A) : list A :=
  match nth_error array i, nth_error array j with
  | Some ai, Some aj => set_nth j ai (set_nth i aj array)
  | _, _ => array
  end.

(** The loop of [shuffleArray], entered with counter [i]. *)
Fixpoint shuffleLoop {A : Type} (i : nat) (shuffled : list A) : M (list A) :=
  match i with
  | O => ret shuffled
  | S i' =>
      r <- Math_random ;;
      let j := Z.to_nat (Qfloor (r * inject_Z (Z.of_nat (i + 1)))) in
      shuffleLoop i' (swap i j shuffled)
  end.

Definition shuffleArray {A : Type} (array : list A) : M (list A) :=
  shuffleLoop (List.length array - 1) array.

(** [targetCount] is a length (the caller passes 15), and
    [slice(0, targetCount)] keeps the first [targetCount] elements. *)
Definition filterAndSelectTracks (tracks : list SpotifyTrack)
    (targetFeatures : Features) (accessToken : string) (targetCount : nat)
    : M (list SpotifyTrack) :=
  if Nat.eqb (List.length tracks) 0 then
    throw (Error "No tracks found for the given mood")
  else
    let trackIds := map id tracks in
    audioFeatures_ <- getAudioFeatures accessToken trackIds ;;
    let scoredTracks := scoreTracks tracks audioFeatures_ targetFeatures in
    let selectedTracks :=
      map track (firstn targetCount (sort scoredTracks)) in
    shuffleArray selectedTracks.

(** The object literal [moodNames] of [generatePlaylistName]. *)
Definition moodNames : list (string * list string) :=
  [ ("happy", ["Sunshine Vibes"; "Feel Good Hits"; "Happy Hour";
               "Positivity Playlist"; "Joyful Jams"]);
    ("sad", ["Melancholy Moments"; "Rainy Day Blues"; "Heartbreak Hotel";
             "Emotional Journey"; "Tears & Tunes"]);
    ("energetic", ["Power Hour"; "Adrenaline Rush"; "High Energy Hits";
                   "Pump It Up"; "Electric Vibes"]);
    ("calm", ["Peaceful Moments"; "Zen Zone"; "Tranquil Tunes";
              "Meditation Music"; "Serenity Sounds"]);
    ("anxious", ["Restless Mind"; "Anxious Energy"; "Introspective Indie";
                 "Uncertain Times"; "Tension & Release"]);
    ("nostalgic", ["Memory Lane"; "Throwback Therapy"; "Vintage Vibes";
                   "Golden Oldies"; "Nostalgic Notes"]) ].

(** [moodNames[primaryEmotion] || ['Mixed Mood Music']], then a random
    element. A key found on [Object.prototype] yields a value that is not an
    array of names, every index of which reads [undefined]. *)
Definition generatePlaylistName (moodAnalysis : MoodAnalysis) : M string :=
  let key := primaryEmotion moodAnalysis in
  let names :=
    match assoc key moodNames with
    | Some l => l
    | None =>
        if existsb (String.eqb key) Object_prototype then []
        else ["Mixed Mood Music"]
    end in
  r <- Math_random ;;
  let n := Z.of_nat (List.length names) in
  let index := Z.to_nat (Qfloor (r * inject_Z n)) in
  let randomName := nth index names "undefined" in
  ret (randomName ++ " - " ++ today).

(** [generatePlaylistDescription] formats its argument into a string and
    has no effect; its text plays no part below. *)
Variable generatePlaylistDescription : MoodAnalysis -> string.

(** The genres [generatePlaylist] asks recommendations for: the value of
    [filteredGenres] after the fallback. *)
Definition filterGenres (profile : MoodMusicProfile)
    (availableGenres : list string) : list string :=
  let filteredGenres :=
    firstn 3
      (filter (fun genre => existsb (String.eqb genre) availableGenres)
         (genres profile)) in
  if Nat.eqb (List.length filteredGenres) 0
  then (filteredGenres ++ ["pop"])%list
  else filteredGenres.

Definition generatePlaylistBody (moodAnalysis : MoodAnalysis)
    (accessToken userId : string) : M GeneratedPlaylist :=
  match moodProfiles_get (primaryEmotion moodAnalysis) with
  | Undefined =>
      throw (Error ("Unknown mood: " ++ primaryEmotion moodAnalysis))
  | Inherited _ =>
      (* [profile] is truthy, and [profile.genres] is [undefined] *)
      availableGenres <- getAvailableGenres accessToken ;;
      throw (TypeError
               "Cannot read properties of undefined (reading 'filter')")
  | Profile profile =>
      availableGenres <- getAvailableGenres accessToken ;;
      let filteredGenres := filterGenres profile availableGenres in
      targetFeatures <- calculateTargetFeatures
                          (audioFeatures profile) (confidence moodAnalysis) ;;
      recommendedTracks <- getRecommendations accessToken filteredGenres
                             targetFeatures 30 ;;
      selectedTracks <- filterAndSelectTracks recommendedTracks
                          targetFeatures accessToken 15 ;;
      playlistName <- generatePlaylistName moodAnalysis ;;
      let playlistDescription := generatePlaylistDescription moodAnalysis in
      playlist <- createPlaylist accessToken userId playlistName
                    playlistDescription false ;;
      let trackUris :=
        map (fun track_ => "spotify:track:" ++ id track_) selectedTracks in
      addTracksToPlaylist accessToken (pl_id playlist) trackUris ;;;
      ret {| g_id := pl_id playlist;
             g_name := pl_name playlist;
             g_description := pl_description playlist;
             g_tracks := selectedTracks;
             g_external_urls := pl_external_urls playlist |}
  end.

Definition generatePlaylist (moodAnalysis : MoodAnalysis)
    (accessToken userId : string) : M GeneratedPlaylist :=
  try_catch
    (generatePlaylistBody moodAnalysis accessToken userId)
    (fun e =>
       console_error "Error generating playlist:" e ;;;
       throw (Error "Failed to generate playlist")).

(** [array.findIndex(pred)], with [length array] standing for -1. *)
Fixpoint findIndex {A : Type} (pred : A -> bool) (l : list A) : nat :=
  match l with
  | [] => 0
  | x :: l' => if pred x then 0 else S (findIndex pred l')
  end.

(** The loop [for (const query of ...)] of [searchByMoodKeywords]. *)
Fixpoint searchLoop (accessToken : string) (queries : list string)
    (allTracks : list SpotifyTrack) : M (list SpotifyTrack) :=
  match queries with
  | [] => ret allTracks
  | query :: queries' =>
      allTracks' <-
        try_catch
          (tracks <- searchTracks accessToken
                       ("genre:" ++ query ++ " OR " ++ query) 10 ;;
           ret (allTracks ++ tracks)%list)
          (fun e =>
             console_error ("Search failed for query: " ++ query) e ;;;
             ret allTracks) ;;
      searchLoop accessToken queries' allTracks'
  end.

Definition searchByMoodKeywords (moodAnalysis : MoodAnalysis)
    (accessToken : string) : M (list SpotifyTrack) :=
  match moodProfiles_get (primaryEmotion moodAnalysis) with
  | Undefined => ret []
  | Inherited _ =>
      (* [profile] is truthy, and spreading [profile.keywords] throws *)
      throw (TypeError "profile.keywords is not iterable")
  | Profile profile =>
      let searchQueries :=
        (keywords profile ++ genres profile
           ++ [primaryEmotion moodAnalysis])%list in
      allTracks <- searchLoop accessToken (firstn 5 searchQueries) [] ;;
      let uniqueTracks :=
        map snd
          (filter
             (fun '(index, track_) =>
                Nat.eqb index
                  (findIndex (fun t => String.eqb (id t) (id track_))
                     allTracks))
             (combine (seq 0 (List.length allTracks)) allTracks)) in
      ret (firstn 30 uniqueTracks)
  end.

End Service.

(** ** [SpotifyService.generateRandomString] *)

Section RandomString.

Variable random : nat -> Q.

Local Open Scope js_scope.
Local Open Scope string_scope.

Definition possible : string :=
  "ABCDEFGHIJKLMNOPQRSTUVWXYZabcdefghijklmnopqrstuvwxyz0123456789".

(** [s.charAt(i)]: the empty string past the end of [s]. *)
Definition charAt (s : string) (i : nat) : string :=
  match String.get i s with
  | Some c => String c EmptyString
  | None => EmptyString
  end.

(** The loop of [generateRandomString], with [n] characters to go. *)
Fixpoint generateRandomStringLoop (n : nat) (text : string) : M string :=
  match n with
  | O => ret text
  | S n' =>
      r <- Math_random random ;;
      let i :=
        Z.to_nat
          (Qfloor (r * inject_Z (Z.of_nat (String.length possible)))) in
      generateRandomStringLoop n' (text ++ charAt possible i)
  end.

Definition generateRandomString (length_ : nat) : M string :=
  generateRandomStringLoop length_ "".

End RandomString.

(** ** [MoodService] ([services/moodService.ts]) *)

From Stdlib Require DecimalString.

(** The values [JSON.parse] returns. The properties of an object are listed
    in the order of enumeration, each name once. *)
#[warnings="-register-all"] Inductive json : Type :=
| JNull
| JBool (b : bool)
| JNumber (n : number)
| JString (s : string)
| JArray (items : list json)
| JObject (properties : list (string * json)).

(** [!!value], [None] being [undefined]. *)
Definition truthy_json (value : option json) : bool :=
  match value with
  | None | Some JNull => false
  | Some (JBool b) => b
  | Some (JNumber (Num q)) => negb (Qeq_bool q 0)
  | Some (JNumber NaN) => false
  | Some (JNumber _) => true
  | Some (JString s) => negb (String.eqb s "")
  | Some (JArray _) | Some (JObject _) => true
  end.

(** [typeof value === 'object'] *)
Definition is_object (value : option json) : bool :=
  match value with
  | Some JNull | Some (JArray _) | Some (JObject _) => true
  | _ => false
  end.

(** [typeof value !== 'number' || value < 0 || value > 1] *)
Definition outside_unit (value : option json) : bool :=
  match value with
  | Some (JNumber n) => JS.gt (Num 0) n || JS.gt n (Num 1)
  | _ => true
  end.

(** [keys.includes(value)]: only a string is equal to a string. *)
Definition includes_json (keys : list string) (value : option json) : bool :=
  match value with
  | Some (JString s) => existsb (String.eqb s) keys
  | _ => false
  end.

Section MoodService.

Local Open Scope js_scope.
Local Open Scope string_scope.

(** [value[key]], for the names [validateMoodAnalysis] reads, which no
    prototype defines: an object has the property when it is one of its
    own, a primitive value or an array has not, and on [null] and
    [undefined] the read throws. *)
Definition read (value : option json) (key : string) : M (option json) :=
  match value with
  | None =>
      throw (TypeError
               ("Cannot read properties of undefined (reading '" ++ key
                ++ "')"))
  | Some JNull =>
      throw (TypeError
               ("Cannot read properties of null (reading '" ++ key ++ "')"))
  | Some (JObject properties) => ret (assoc key properties)
  | Some _ => ret None
  end.

Definition requiredEmotions : list string :=
  ["happy"; "sad"; "energetic"; "calm"; "anxious"; "nostalgic"].

(** The loop [for (const emotion of requiredEmotions)]. *)
Fixpoint checkEmotions (data : json) (emotions_ : list string) : M unit :=
  match emotions_ with
  | [] => ret tt
  | emotion :: rest =>
      data_emotions <- read (Some data) "emotions" ;;
      value <- read data_emotions emotion ;;
      if outside_unit value then
        throw (Error ("Invalid emotion score for " ++ emotion))
      else checkEmotions data rest
  end.

Definition validateMoodAnalysis (data : json) : M unit :=
  data_primaryEmotion <- read (Some data) "primaryEmotion" ;;
  if negb (truthy_json data_primaryEmotion)
     || negb (includes_json requiredEmotions data_primaryEmotion)
  then throw (Error "Invalid primaryEmotion")
  else
    data_emotions <- read (Some data) "emotions" ;;
    if negb (truthy_json data_emotions) || negb (is_object data_emotions)
    then throw (Error "Invalid emotions object")
    else
      checkEmotions data requiredEmotions ;;;
      data_confidence <- read (Some data) "confidence" ;;
      if outside_unit data_confidence
      then throw (Error "Invalid confidence score")
      else ret tt.

(** [text.includes(keyword)] *)
Fixpoint includes (text keyword : string) : bool :=
  if String.prefix keyword text then true
  else
    match text with
    | EmptyString => false
    | String _ rest => includes rest keyword
    end.

Definition countKeywords (text : string) (keywords_ : list string) : nat :=
  List.length (filter (includes text) keywords_).

Definition happyWords : list string :=
  ["happy"; "joy"; "excited"; "great"; "awesome"; "love"; "wonderful"].
Definition sadWords : list string :=
  ["sad"; "down"; "depressed"; "upset"; "hurt"; "cry"; "lonely"].
Definition energeticWords : list string :=
  ["energetic"; "pump"; "dance"; "party"; "active"; "workout"].
Definition calmWords : list string :=
  ["calm"; "peaceful"; "relax"; "quiet"; "meditate"; "serene"].
Definition anxiousWords : list string :=
  ["anxious"; "worried"; "stress"; "nervous"; "panic"; "fear"].
Definition nostalgicWords : list string :=
  ["remember"; "past"; "nostalgic"; "memories"; "old"; "miss"].

(** [countKeywords(lowerText, words) / words.length] *)
Definition keywordScore (lowerText : string) (words : list string) : Q :=
  inject_Z (Z.of_nat (countKeywords lowerText words))
  / inject_Z (Z.of_nat (List.length words)).

(** [Object.entries(scores)] and [Object.values(scores)]. *)
Definition entries (scores : Emotions) : list (string * Q) :=
  [ ("happy", e_happy scores); ("sad", e_sad scores);
    ("energetic", e_energetic scores); ("calm", e_calm scores);
    ("anxious", e_anxious scores); ("nostalgic", e_nostalgic scores) ].

Definition values (scores : Emotions) : list Q := map snd (entries scores).

(** [x > y] on finite numbers. *)
Definition Qgtb (x y : Q) : bool := negb (Qle_bool x y).

(** The normalisation: every score divided by a positive total, and
    [scores.calm = 1.0] otherwise. *)
Definition normalize (scores : Emotions) (total : Q) : Emotions :=
  if Qgtb total 0 then
    {| e_happy := e_happy scores / total;
       e_sad := e_sad scores / total;
       e_energetic := e_energetic scores / total;
       e_calm := e_calm scores / total;
       e_anxious := e_anxious scores / total;
       e_nostalgic := e_nostalgic scores / total |}
  else
    {| e_happy := e_happy scores;
       e_sad := e_sad scores;
       e_energetic := e_energetic scores;
       e_calm := 1.0;
       e_anxious := e_anxious scores;
       e_nostalgic := e_nostalgic scores |}.

(** [entries.reduce((a, b) => scores[a[0]] > scores[b[0]] ? a : b)]: an
    entry holds the score of its key, and without an initial value the
    first entry starts the reduction. *)
Definition greater (a b : string * Q) : string * Q :=
  if Qgtb (snd a) (snd b) then a else b.

Definition reduce_greater (l : list (string * Q)) : option (string * Q) :=
  match l with
  | [] => None
  | first :: rest => Some (fold_left greater rest first)
  end.

(** [getFallbackMoodAnalysis], given [text.toLowerCase()]. *)
Definition fallbackMoodAnalysis (text lowerText : string) : MoodAnalysis :=
  let scores :=
    {| e_happy := keywordScore lowerText happyWords;
       e_sad := keywordScore lowerText sadWords;
       e_energetic := keywordScore lowerText energeticWords;
       e_calm := keywordScore lowerText calmWords;
       e_anxious := keywordScore lowerText anxiousWords;
       e_nostalgic := keywordScore lowerText nostalgicWords |} in
  let total := fold_left Qplus (values scores) 0 in
  let scores' := normalize scores total in
  let primaryEmotion_ :=
    match reduce_greater (entries scores') with
    | Some entry => fst entry
    | None => "undefined"
    end in
  {| primaryEmotion := primaryEmotion_;
     emotions := scores';
     confidence := if Qgtb total 0 then Qmin total 0.8 else 0.3;
     rawText := text |}.

(** [String.prototype.toLowerCase] *)
Variable toLowerCase : string -> string.

Definition getFallbackMoodAnalysis (text : string) : MoodAnalysis :=
  fallbackMoodAnalysis text (toLowerCase text).

(** The object a [MoodAnalysis] is. *)
Definition MoodAnalysis_json (m : MoodAnalysis) : json :=
  JObject
    [ ("primaryEmotion", JString (primaryEmotion m));
      ("emotions",
       JObject
         (map (fun entry => (fst entry, JNumber (Num (snd entry))))
            (entries (emotions m))));
      ("confidence", JNumber (Num (confidence m)));
      ("rawText", JString (rawText m)) ].

(** [object[key] = value] on the list of the properties. *)
Fixpoint set_property (key : string) (value : json)
    (properties : list (string * json)) : list (string * json) :=
  match properties with
  | [] => [(key, value)]
  | (k, x) :: rest =>
      if String.eqb k key then (k, value) :: rest
      else (k, x) :: set_property key value rest
  end.

(** The own enumerable properties [{...value}] copies: the properties of
    an object, the elements of an array under their indices, the
    characters of a string under theirs, and none of the other values. *)
Definition index_keys (n : nat) : list string :=
  map (fun i => DecimalString.NilEmpty.string_of_uint (Nat.to_uint i))
    (seq 0 n).

Definition spread (value : json) : list (string * json) :=
  match value with
  | JObject properties => properties
  | JArray items => combine (index_keys (List.length items)) items
  | JString s =>
      combine (index_keys (String.length s))
        (map (fun c => JString (String c EmptyString))
           (list_ascii_of_string s))
  | _ => []
  end.

(** The outcome of [openai.chat.completions.create] for the prompt made of
    [text], followed by the read of
    [response.choices[0]?.message?.content]: the error thrown, or the
    content, [None] when it is [undefined] or [null]. *)
Variable completion : string -> result (option string).

(** [JSON.parse], with the [SyntaxError] it throws. *)
Variable JSON_parse : string -> result json.

(** A value computed without effect, or the error thrown instead. *)
Definition lift {A : Type} (r : result A) : M A := fun w => (r, w).

Definition analyzeMood (text : string) : M json :=
  try_catch
    (content <- lift (completion text) ;;
     match content with
     | None | Some EmptyString => throw (Error "No response from OpenAI")
     | Some content_ =>
         moodData <- lift (JSON_parse content_) ;;
         validateMoodAnalysis moodData ;;;
         ret (JObject
                (set_property "rawText" (JString text) (spread moodData)))
     end)
    (fun e =>
       console_error "Error analyzing mood:" e ;;;
       ret (MoodAnalysis_json (getFallbackMoodAnalysis text))).

End MoodService.

(** * Vocabulary of the statements *)





(** Every range of a profile has its [min] below its [max]. *)
Definition wellFormed (ranges : AudioFeatureRanges) : Prop :=
  forall feature,
    min (range_of ranges feature) <= max (range_of ranges feature).

(** The position in the random stream of the draw for each feature:
    [calculateTargetFeatures] computes the four targets in this order. *)
Definition drawOf (feature : Feature) : nat :=
  match feature with
  | energy => 0
  | valence => 1
  | danceability => 2
  | tempo => 3
  end.

(** [l] keeps some of the elements of [l'], in the order of [l']. *)
Inductive subsequence {A : Type} : list A -> list A -> Prop :=
| subsequence_nil : subsequence [] []
| subsequence_skip (x : A) (l l' : list A) :
    subsequence l l' -> subsequence l (x :: l')
| subsequence_keep (x : A) (l l' : list A) :
    subsequence l l' -> subsequence (x :: l) (x :: l').

(** The genres of the profile that are available, in the order of the
    profile. *)
Definition intersection (profileGenres availableGenres : list string)
    : list string :=
  filter (fun genre => if in_dec string_dec genre availableGenres
                       then true else false)
    profileGenres.

(** Two candidates; the Web API has no audio features for the first and
    features equal to the target for the second. *)
Definition twoTracks : list SpotifyTrack :=
  [mkTrack "a" "A" 1000; mkTrack "b" "B" 2000].

Definition onTarget : Features :=
  mkFeatures (Some 0.8) (Some 0.8) (Some 0.75) (Some 140).

Definition nullFirst : WebApi :=
  {| available_genre_seeds := fun _ => None;
     recommendations := fun _ _ => None;
     audio_features := fun _ _ => Some [None; Some onTarget];
     create_playlist := fun _ _ _ _ _ => None;
     add_tracks := fun _ _ _ => None;
     search := fun _ _ _ => None |}.

(** The value of a finite score. *)
Definition scoreValue (s : ScoredTrack) : Q :=
  match score s with
  | Num q => q
  | _ => 0
  end.

Definition finiteScore (s : ScoredTrack) : Prop :=
  exists q, score s = Num q.

(** [a] may stand before [b] in a ranking by descending score. *)
Definition scoreGe (a b : ScoredTrack) : Prop :=
  scoreValue b <= scoreValue a.

(** The candidates whose score is [v]. *)
Definition hasScore (v : Q) (s : ScoredTrack) : bool :=
  Qeq_bool (scoreValue s) v.

(** An action that sends requests and forgets none. *)
Definition sends {A : Type} (c : M A) : Prop :=
  forall w, exists sent, requests (snd (c w)) = (requests w ++ sent)%list.


(** A Web API for the runs of [generatePlaylist]: it answers the request
    for the genres with [availableGenres], recommends [recommended], has
    audio features equal to the target for every track, creates the
    playlist [createdPlaylist], and answers the addition of tracks with
    [added]. *)
Definition createdPlaylist : Playlist :=
  mkPlaylist "p1" "Happy Hour" "For a good day"
    "https://open.spotify.com/playlist/p1".

Definition webApi (availableGenres : option (list string))
    (recommended : list SpotifyTrack) (added : option unit) : WebApi :=
  {| available_genre_seeds := fun _ => availableGenres;
     recommendations := fun _ _ => Some recommended;
     audio_features :=
       fun _ _ => Some (map (fun _ => Some onTarget) recommended);
     create_playlist := fun _ _ _ _ _ => Some createdPlaylist;
     add_tracks := fun _ _ _ => added;
     search := fun _ _ _ => Some recommended |}.

Definition happyMood : MoodAnalysis :=
  mkMood "happy" (mkEmotions 0.9 0 0.1 0 0 0) 0.9 "I feel amazing today!".

(** The tracks of [l] whose id is not in [seen] and does not occur earlier
    in [l]: the first track of each new id. *)
Fixpoint firstOfEachId (seen : list string) (l : list SpotifyTrack)
    : list SpotifyTrack :=
  match l with
  | [] => []
  | track_ :: l' =>
      if existsb (String.eqb (id track_)) seen then firstOfEachId seen l'
      else track_ :: firstOfEachId (id track_ :: seen) l'
  end.

(** The query [searchByMoodKeywords] sends for a search term, and what the
    Web API finds for it, nothing when the search fails. *)
Definition searchQuery (term : string) : string :=
  ("genre:" ++ term ++ " OR " ++ term)%string.

Definition found (api : WebApi) (accessToken term : string)
    : list SpotifyTrack :=
  match search api accessToken (searchQuery term) 10 with
  | Some tracks => tracks
  | None => []
  end.

(** The numbers that pass the test of [validateMoodAnalysis]: none of
    [n < 0] and [n > 1] holds. NaN passes, both comparisons being false. *)
Definition inUnit (n : number) : Prop :=
  match n with
  | Num q => 0 <= q <= 1
  | NaN => True
  | _ => False
  end.

(** The shape of a mood analysis: an object whose [primaryEmotion] is one
    of the six emotions, whose [emotions] is an object with a number of
    [inUnit] for each of the six, and whose [confidence] is a number of
    [inUnit]. *)
Definition validMoodData (data : json) : Prop :=
  exists properties primaryEmotion_ scores c,
    data = JObject properties /\
    assoc "primaryEmotion"%string properties
    = Some (JString primaryEmotion_) /\
    In primaryEmotion_ requiredEmotions /\
    assoc "emotions"%string properties = Some (JObject scores) /\
    (forall emotion,
        In emotion requiredEmotions ->
        exists n, assoc emotion scores = Some (JNumber n) /\ inUnit n) /\
    assoc "confidence"%string properties = Some (JNumber c) /\
    inUnit c.


(** No keyword of the fallback analysis occurs in the text. *)
Definition noKeyword (lowerText : string) : Prop :=
  forall keyword,
    In keyword
      (happyWords ++ sadWords ++ energeticWords ++ calmWords
       ++ anxiousWords ++ nostalgicWords)%list ->
    includes lowerText keyword = false.

(** The answer of the model is usable: a non-empty content that parses as
    data of the shape of a mood analysis. *)
Definition usable (completion : string -> result (option string))
    (JSON_parse : string -> result json) (text : string) (moodData : json)
    : Prop :=
  exists content,
    completion text = Ok (Some content) /\
    content <> EmptyString /\
    JSON_parse content = Ok moodData /\
    validMoodData moodData.

(** * Properties *)

(** ** Arithmetic on finite numbers *)

Lemma add_Num (a b : Q) : JS.add (Num a) (Num b) = Num (a + b).
Proof. reflexivity. Qed.

Lemma sub_Num (a b : Q) : JS.sub (Num a) (Num b) = Num (a + - b).
Proof. reflexivity. Qed.

Lemma mul_Num (a b : Q) : JS.mul (Num a) (Num b) = Num (a * b).
Proof. reflexivity. Qed.

Lemma max_Num (a b : Q) : JS.max (Num a) (Num b) = Num (Qmax a b).
Proof. reflexivity. Qed.

Lemma div_Num (a b : Q) :
  ~ b == 0 -> JS.div (Num a) (Num b) = Num (a / b).
Proof.
  intros Hb. unfold JS.div.
  destruct (Qeq_bool b 0) eqn:E; [|reflexivity].
  apply Qeq_bool_eq in E. contradiction.
Qed.

Lemma gt_Num_0 (w : Q) : JS.gt (Num w) (Num 0) = true <-> 0 < w.
Proof.
  unfold JS.gt. rewrite negb_true_iff.
  destruct (Qle_bool w 0) eqn:E.
  - apply Qle_bool_iff in E. split; [discriminate | intros; lra].
  - split; [intros _ | reflexivity].
    apply Qnot_le_lt. intros H. apply Qle_bool_iff in H. congruence.
Qed.

Lemma Qmax_0_bounds (x : Q) : x <= 1 -> 0 <= Qmax 0 x <= 1.
Proof.
  intros Hx. split; [apply Q.le_max_l | apply Q.max_lub; lra].
Qed.


(** ** The track scorer *)

(** The score of one feature is a number of [0, 1], as long as a target
    tempo is positive. *)
Lemma featureScore_unit (feature : Feature) (a t : Q) :
  (feature = tempo -> 0 < t) ->
  exists c, featureScore feature a t = Num c /\ 0 <= c <= 1.
Proof.
  intros Ht.
  assert (Habs : 0 <= Qabs (a + - t)) by apply Qabs_nonneg.
  destruct feature; unfold featureScore;
    rewrite ?sub_Num; unfold JS.abs; rewrite ?sub_Num, ?max_Num;
    try (eexists; split; [reflexivity | apply Qmax_0_bounds; lra]).
  specialize (Ht eq_refl).
  rewrite div_Num by lra. rewrite sub_Num, max_Num.
  eexists; split; [reflexivity|]. apply Qmax_0_bounds.
  assert (0 <= Qabs (a + - t) / t) by (apply Qle_shift_div_l; lra).
  lra.
Qed.




(** The loop keeps [0 <= totalScore <= totalWeight] when every feature
    score lies in [0, 1]. *)
Lemma scoreLoop_unit (a t : Features) (entries : list (Feature * Q)) :
  Forall (fun entry => 0 <= snd entry) entries ->
  (forall y, prop t tempo = Some y -> 0 < y) ->
  forall s w, 0 <= s <= w ->
  exists s' w',
    fold_left (scoreStep a t) entries (Num s, Num w) = (Num s', Num w') /\
    0 <= s' <= w' /\ w <= w'.
Proof.
  intros Hw Ht. induction Hw as [|[feature weight] entries Hx Hl IH];
    intros s w Hsw.
  - exists s, w. repeat split; try tauto; lra.
  - cbn [fold_left]. unfold scoreStep at 2. cbn [snd] in Hx.
    destruct (prop a feature) as [x|] eqn:Ea;
      destruct (prop t feature) as [y|] eqn:Et;
      try (apply IH; assumption).
    destruct (featureScore_unit feature x y) as (c & Hc & Hc01).
    { intros ->. apply Ht. assumption. }
    rewrite Hc, mul_Num, !add_Num.
    destruct (IH (s + c * weight) (w + weight)) as (s' & w' & E & H1 & H2).
    { split; nra. }
    exists s', w'. repeat split; try tauto; lra.
Qed.



(** ** The target feature calculator *)

Lemma clamp_in_range (lo hi x : Q) :
  lo <= hi -> lo <= Qmax lo (Qmin hi x) <= hi.
Proof.
  intros H. split.
  - apply Q.le_max_l.
  - apply Q.max_lub; [assumption | apply Q.le_min_l].
Qed.

Lemma clamp_inside (lo hi x : Q) :
  lo <= x <= hi -> Qmax lo (Qmin hi x) == x.
Proof.
  intros [H1 H2].
  assert (E : Qmin hi x == x) by (apply Q.min_r; assumption).
  rewrite Q.max_r; [assumption|]. rewrite E. assumption.
Qed.

Lemma targetValue_in_range (range : Range) (strictness r : Q) :
  min range <= max range ->
  min range <= targetValue range strictness r <= max range.
Proof. intros H. unfold targetValue. apply clamp_in_range. assumption. Qed.

Lemma variance_strict (range : Range) (strictness : Q) :
  strictness == 1 -> variance range strictness == 0.
Proof. intros Hs. unfold variance. rewrite Hs. ring. Qed.

Lemma targetValue_strict (range : Range) (strictness r : Q) :
  min range <= max range -> strictness == 1 ->
  targetValue range strictness r == (min range + max range) / 2.
Proof.
  intros H Hs. unfold targetValue.
  set (x := midpoint range + _).
  assert (Hx : x == (min range + max range) / 2).
  { unfold x, midpoint, variance. rewrite Hs. field. }
  rewrite clamp_inside; [assumption|].
  rewrite Hx. split.
  - apply Qle_shift_div_l; lra.
  - apply Qle_shift_div_r; lra.
Qed.

Lemma assoc_In {A : Type} (key : string) (l : list (string * A)) (v : A) :
  assoc key l = Some v -> In (key, v) l.
Proof.
  induction l as [|[k x] l IH]; cbn [assoc]; [discriminate|].
  destruct (String.eqb key k) eqn:E.
  - apply String.eqb_eq in E. intros [= ->]. left. congruence.
  - intros H. right. apply IH. assumption.
Qed.

Lemma moodProfiles_wellFormed (emotion : string) (profile : MoodMusicProfile) :
  assoc emotion moodProfiles = Some profile ->
  wellFormed (audioFeatures profile).
Proof.
  intros H. apply assoc_In in H. unfold moodProfiles in H. cbn [In] in H.
  repeat (destruct H as [[= _ <-] | H];
          [ intros []; cbn; intros C; discriminate C | ]).
  contradiction.
Qed.

Lemma calculateTargetFeatures_run (random : nat -> Q)
    (ranges : AudioFeatureRanges) (c : Q) (w : World) :
  exists targets,
    calculateTargetFeatures random ranges c w =
    (Ok targets,
     {| random_pos := (4 + random_pos w)%nat;
        requests := requests w;
        console := console w |}) /\
    forall feature,
      prop targets feature =
      Some (targetValue (range_of ranges feature) (Qmax 0.3 c)
              (random (drawOf feature + random_pos w)%nat)).
Proof.
  eexists. split; [reflexivity|]. intros []; reflexivity.
Qed.

(** C3. For each of the six mood profiles, every confidence and every
    sequence of values of the random source, [calculateTargetFeatures]
    returns four targets; each is [getTargetValue] of its range at
    strictness [max(0.3, confidence)], and lies within the [min] and [max]
    of that range. *)
Theorem calculateTargetFeatures_in_range (random : nat -> Q)
    (emotion : string) (profile : MoodMusicProfile) (c : Q) (w : World) :
  assoc emotion moodProfiles = Some profile ->
  exists targets w',
    calculateTargetFeatures random (audioFeatures profile) c w =
    (Ok targets, w') /\
    forall feature,
      let range := range_of (audioFeatures profile) feature in
      exists v,
        prop targets feature = Some v /\
        v = targetValue range (Qmax 0.3 c)
              (random (drawOf feature + random_pos w)%nat) /\
        min range <= v <= max range.
Proof.
  intros Hp.
  destruct (calculateTargetFeatures_run random (audioFeatures profile) c w)
    as (targets & E & Ht).
  exists targets. eexists. split; [exact E|].
  intros feature range. eexists. split; [apply Ht|]. split; [reflexivity|].
  apply targetValue_in_range.
  apply (moodProfiles_wellFormed emotion profile Hp).
Qed.

Lemma calculateTargetFeatures_in_range_witness :
  exists targets w',
    calculateTargetFeatures (fun _ => 0.25) (audioFeatures profile_happy)
      0.9 (mkWorld 0 [] []) = (Ok targets, w') /\
    forall feature,
      let range := range_of (audioFeatures profile_happy) feature in
      exists v,
        prop targets feature = Some v /\
        v = targetValue range (Qmax 0.3 0.9) 0.25 /\
        min range <= v <= max range.
Proof.
  apply (calculateTargetFeatures_in_range (fun _ => 0.25) "happy").
  reflexivity.
Defined.

(** C4. At confidence 1 the strictness is 1, the variance of every range
    is 0, and [calculateTargetFeatures] returns for each feature the
    midpoint of its range, whatever the random source produces. *)
Theorem calculateTargetFeatures_midpoint (random : nat -> Q)
    (emotion : string) (profile : MoodMusicProfile) (c : Q) (w : World) :
  assoc emotion moodProfiles = Some profile ->
  c == 1 ->
  Qmax 0.3 c == 1 /\
  exists targets w',
    calculateTargetFeatures random (audioFeatures profile) c w =
    (Ok targets, w') /\
    forall feature,
      let range := range_of (audioFeatures profile) feature in
      variance range (Qmax 0.3 c) == 0 /\
      exists v,
        prop targets feature = Some v /\
        v == (min range + max range) / 2.
Proof.
  intros Hp Hc.
  assert (Hs : Qmax 0.3 c == 1).
  { rewrite Q.max_r; [assumption | rewrite Hc; discriminate]. }
  split; [assumption|].
  destruct (calculateTargetFeatures_run random (audioFeatures profile) c w)
    as (targets & E & Ht).
  exists targets. eexists. split; [exact E|].
  intros feature range. split; [apply variance_strict; assumption|].
  eexists. split; [apply Ht|].
  apply targetValue_strict; [|assumption].
  apply (moodProfiles_wellFormed emotion profile Hp).
Qed.

Lemma calculateTargetFeatures_midpoint_witness :
  Qmax 0.3 1 == 1 /\
  exists targets w',
    calculateTargetFeatures (fun n => inject_Z (Z.of_nat n) / 7)
      (audioFeatures profile_calm) 1 (mkWorld 0 [] []) = (Ok targets, w') /\
    forall feature,
      let range := range_of (audioFeatures profile_calm) feature in
      variance range (Qmax 0.3 1) == 0 /\
      exists v,
        prop targets feature = Some v /\
        v == (min range + max range) / 2.
Proof.
  apply (calculateTargetFeatures_midpoint _ "calm"); reflexivity.
Defined.

(** ** Genre selection *)

Lemma includes_In (genre : string) (availableGenres : list string) :
  existsb (String.eqb genre) availableGenres = true <->
  In genre availableGenres.
Proof.
  rewrite existsb_exists. split.
  - intros (x & Hx & E). apply String.eqb_eq in E. congruence.
  - intros H. exists genre. split; [assumption | apply String.eqb_refl].
Qed.

Lemma filter_includes (profileGenres availableGenres : list string) :
  filter (fun genre => existsb (String.eqb genre) availableGenres)
    profileGenres =
  intersection profileGenres availableGenres.
Proof.
  unfold intersection. apply filter_ext. intros genre.
  destruct (in_dec string_dec genre availableGenres) as [H|H].
  - apply includes_In. assumption.
  - apply not_true_is_false. rewrite includes_In. assumption.
Qed.

Lemma filter_subsequence {A : Type} (p : A -> bool) (l : list A) :
  subsequence (filter p l) l.
Proof.
  induction l as [|x l IH]; cbn [filter].
  - constructor.
  - destruct (p x); constructor; assumption.
Qed.

(** C8. The genres selected by [generatePlaylist] are the first three of
    the intersection of the profile's genres with the available genres,
    taken in the profile's order; when the intersection is empty, the one
    genre [pop]. *)
Theorem filterGenres_spec (profile : MoodMusicProfile)
    (availableGenres : list string) :
  let common := intersection (genres profile) availableGenres in
  subsequence common (genres profile) /\
  (forall genre,
      In genre common <->
      In genre (genres profile) /\ In genre availableGenres) /\
  filterGenres profile availableGenres =
    match common with
    | [] => ["pop"%string]
    | _ :: _ => firstn 3 common
    end /\
  (List.length (filterGenres profile availableGenres) <= 3)%nat.
Proof.
  intros common.
  assert (E : filterGenres profile availableGenres =
              match common with
              | [] => ["pop"%string]
              | _ :: _ => firstn 3 common
              end).
  { unfold filterGenres. rewrite filter_includes. fold common.
    destruct common as [|g1 common']; reflexivity. }
  split; [apply filter_subsequence|]. split; [|split; [exact E|]].
  - intros genre. unfold common, intersection. rewrite filter_In.
    destruct (in_dec string_dec genre availableGenres); intuition congruence.
  - rewrite E. destruct common as [|g1 common']; [cbn; lia|].
    apply firstn_le_length.
Qed.

(** ** Failures of the pipeline *)

Section Failures.

Variable random : nat -> Q.
Variable api : WebApi.
Variable today : string.
Variable generatePlaylistDescription : MoodAnalysis -> string.

Local Open Scope string_scope.

(** The shuffle sends no request. *)
Lemma shuffleLoop_requests {A : Type} (i : nat) (l : list A) (w : World) :
  requests (snd (shuffleLoop random i l w)) = requests w.
Proof.
  revert l w. induction i as [|i IH]; intros l w; cbn [shuffleLoop].
  - reflexivity.
  - unfold bind, Math_random. rewrite IH. reflexivity.
Qed.

(** C6. On the empty candidate list [filterAndSelectTracks] throws its
    error [No tracks found for the given mood] and leaves the world as it
    was: no request for audio features has been sent and no random value
    drawn, whatever the Web API would have answered. On every other list
    the request for the audio features is sent, and is the one request of
    the function: the test of the list comes first. *)
Theorem filterAndSelectTracks_empty (targetFeatures : Features)
    (accessToken : string) (targetCount : nat) (w : World) :
  filterAndSelectTracks random api [] targetFeatures accessToken targetCount w
  = (Throw (Error "No tracks found for the given mood"), w) /\
  forall track_ tracks,
    requests
      (snd (filterAndSelectTracks random api (track_ :: tracks)
              targetFeatures accessToken targetCount w)) =
    (requests w ++
     [GetAudioFeatures accessToken
        (String.concat "," (map id (track_ :: tracks)))])%list.
Proof.
  split; [reflexivity|]. intros track_ tracks.
  unfold filterAndSelectTracks. cbn [List.length Nat.eqb].
  unfold bind at 1, getAudioFeatures, try_catch, bind at 1, axios.
  destruct (audio_features api accessToken _) as [response|].
  - unfold ret, shuffleArray. rewrite shuffleLoop_requests. reflexivity.
  - reflexivity.
Qed.

(** A property name the table misses, and [Object.prototype] too, reads
    [undefined]. *)
Lemma moodProfiles_get_Undefined (key : string) :
  moodProfiles_get key = Undefined <->
  assoc key moodProfiles = None /\ ~ In key Object_prototype.
Proof.
  unfold moodProfiles_get.
  destruct (assoc key moodProfiles) as [p|].
  - split; [discriminate | intros [H _]; discriminate H].
  - destruct (existsb (String.eqb key) Object_prototype) eqn:E.
    + split; [discriminate|]. intros [_ H]. exfalso. apply H.
      apply includes_In. assumption.
    + split; [|reflexivity]. intros _. split; [reflexivity|].
      rewrite <- includes_In. congruence.
Qed.

(** When the lookup of the emotion gives [undefined], [generatePlaylist]
    throws [Unknown mood], which its handler logs and replaces by the
    generic error; no request has been sent. *)
Lemma generatePlaylist_undefined_profile (moodAnalysis : MoodAnalysis)
    (accessToken userId : string) (w : World) :
  moodProfiles_get (primaryEmotion moodAnalysis) = Undefined ->
  generatePlaylistBody random api today generatePlaylistDescription
    moodAnalysis accessToken userId w =
  (Throw (Error ("Unknown mood: " ++ primaryEmotion moodAnalysis)), w) /\
  generatePlaylist random api today generatePlaylistDescription
    moodAnalysis accessToken userId w =
  (Throw (Error "Failed to generate playlist"),
   {| random_pos := random_pos w;
      requests := requests w;
      console :=
        (console w ++
         [("Error generating playlist: Unknown mood: "
           ++ primaryEmotion moodAnalysis)%string])%list |}).
Proof.
  intros H. unfold generatePlaylist, try_catch, generatePlaylistBody.
  rewrite H. split; reflexivity.
Qed.

(** C7, at the emotion [constructor]. The name is none of the six
    categories, but [moodProfiles] inherits a property of that name, so
    [!profile] is false and nothing is thrown there: [generatePlaylist]
    sends the request for the available genres, and only then fails, on
    reading [profile.genres]. *)
Theorem generatePlaylist_constructor (e : Emotions) (c : Q) (text : string)
    (accessToken userId : string) (w : World) :
  let moodAnalysis := mkMood "constructor" e c text in
  assoc (primaryEmotion moodAnalysis) moodProfiles = None /\
  exists w',
    generatePlaylist random api today generatePlaylistDescription
      moodAnalysis accessToken userId w =
    (Throw (Error "Failed to generate playlist"), w') /\
    requests w' = (requests w ++ [GetAvailableGenreSeeds accessToken])%list.
Proof.
  intros moodAnalysis. split; [reflexivity|].
  unfold generatePlaylist, try_catch, generatePlaylistBody.
  change (moodProfiles_get (primaryEmotion moodAnalysis))
    with (Inherited "constructor").
  unfold bind, getAvailableGenres, try_catch, axios.
  destruct (available_genre_seeds api accessToken);
    eexists; split; reflexivity.
Qed.

(** When the lookup of the emotion gives [undefined],
    [searchByMoodKeywords] returns the empty list and sends no request. *)
Lemma searchByMoodKeywords_undefined_profile (moodAnalysis : MoodAnalysis)
    (accessToken : string) (w : World) :
  moodProfiles_get (primaryEmotion moodAnalysis) = Undefined ->
  searchByMoodKeywords api moodAnalysis accessToken w = (Ok [], w).
Proof. intros H. unfold searchByMoodKeywords. rewrite H. reflexivity. Qed.

(** C10, at the emotion [constructor]: [searchByMoodKeywords] finds the
    inherited property, goes past the test [!profile] and throws a
    [TypeError] on [profile.keywords]. *)
Theorem searchByMoodKeywords_constructor (e : Emotions) (c : Q)
    (text : string) (accessToken : string) (w : World) :
  let moodAnalysis := mkMood "constructor" e c text in
  assoc (primaryEmotion moodAnalysis) moodProfiles = None /\
  searchByMoodKeywords api moodAnalysis accessToken w =
  (Throw (TypeError "profile.keywords is not iterable"), w).
Proof. split; reflexivity. Qed.

End Failures.

(** ** Alignment of the audio features with the candidates *)

(** [getAudioFeatures] returns the entries of the response that are not
    [null]: a response with a [null] comes back shorter. *)
Lemma getAudioFeatures_response (api : WebApi) (accessToken : string)
    (trackIds : list string) (response : list (option Features))
    (w : World) :
  audio_features api accessToken (String.concat "," trackIds)
  = Some response ->
  getAudioFeatures api accessToken trackIds w =
  (Ok (filter non_null response),
   {| random_pos := random_pos w;
      requests :=
        (requests w ++
         [GetAudioFeatures accessToken (String.concat "," trackIds)])%list;
      console := console w |}).
Proof.
  intros H. unfold getAudioFeatures, try_catch, bind, axios.
  rewrite H. reflexivity.
Qed.

(** C1, at the candidates [twoTracks] and the Web API [nullFirst]. The
    response is [[null, features of b]]; the list [filterAndSelectTracks]
    receives is [[features of b]], so index 0, the index of track a, holds
    the features of track b, and track a is scored with them while track b
    finds [undefined]. On the response itself the scores are the other way
    round. *)
Theorem getAudioFeatures_misaligned (w : World) :
  audio_features nullFirst "token" (String.concat "," (map id twoTracks))
  = Some [None; Some onTarget] /\
  exists audioFeatures_ w',
    getAudioFeatures nullFirst "token" (map id twoTracks) w =
    (Ok audioFeatures_, w') /\
    audioFeatures_ = [Some onTarget] /\
    nth_error audioFeatures_ 0 = Some (Some onTarget) /\
    nth_error audioFeatures_ 1 = None /\
    map track (scoreTracks twoTracks audioFeatures_ onTarget) = twoTracks /\
    map score (scoreTracks twoTracks audioFeatures_ onTarget) =
    [calculateTrackScore onTarget onTarget; Num 0] /\
    map score (scoreTracks twoTracks [None; Some onTarget] onTarget) =
    [Num 0; calculateTrackScore onTarget onTarget].
Proof.
  split; [reflexivity|].
  eexists. eexists. split.
  - apply getAudioFeatures_response. reflexivity.
  - repeat split; reflexivity.
Qed.

(** ** Scoring and ranking the candidates *)

Lemma featureScore_finite (feature : Feature) (a t : Q) :
  (feature = tempo -> ~ t == 0) ->
  exists c, featureScore feature a t = Num c.
Proof.
  intros Ht. destruct feature; unfold featureScore;
    rewrite ?sub_Num; unfold JS.abs; rewrite ?sub_Num, ?max_Num;
    try (eexists; reflexivity).
  rewrite div_Num by (apply Ht; reflexivity).
  rewrite sub_Num, max_Num. eexists; reflexivity.
Qed.

Lemma scoreLoop_finite (a t : Features) (entries : list (Feature * Q)) :
  (forall y, prop t tempo = Some y -> ~ y == 0) ->
  forall s w,
  exists s' w',
    fold_left (scoreStep a t) entries (Num s, Num w) = (Num s', Num w').
Proof.
  intros Ht. induction entries as [|[feature weight] entries IH]; intros s w.
  - exists s, w. reflexivity.
  - cbn [fold_left]. unfold scoreStep at 2.
    destruct (prop a feature) as [x|] eqn:Ea;
      destruct (prop t feature) as [y|] eqn:Et; try apply IH.
    destruct (featureScore_finite feature x y) as (c & Hc).
    { intros ->. apply Ht. assumption. }
    rewrite Hc, mul_Num, !add_Num. apply IH.
Qed.

(** Unless the target tempo is 0, every score is a finite number. *)
Lemma calculateTrackScore_finite (a t : Features) :
  (forall y, prop t tempo = Some y -> ~ y == 0) ->
  exists q, calculateTrackScore a t = Num q.
Proof.
  intros Ht. unfold calculateTrackScore.
  destruct (scoreLoop_finite a t weights Ht 0 0) as (s & w & E).
  rewrite E. destruct (JS.gt (Num w) (Num 0)) eqn:G.
  - apply gt_Num_0 in G. rewrite div_Num by lra. eexists; reflexivity.
  - eexists; reflexivity.
Qed.

Lemma mapi_length {A B : Type} (f : nat -> A -> B) (l : list A) (i : nat) :
  List.length (mapi f i l) = List.length l.
Proof.
  revert i. induction l as [|x l IH]; intros i; cbn; [|rewrite IH];
    reflexivity.
Qed.

Lemma mapi_nth_error {A B : Type} (f : nat -> A -> B) (l : list A)
    (i k : nat) :
  nth_error (mapi f i l) k = option_map (f (i + k)%nat) (nth_error l k).
Proof.
  revert i k. induction l as [|x l IH]; intros i [|k]; cbn; try reflexivity.
  - rewrite Nat.add_0_r. reflexivity.
  - rewrite IH. rewrite Nat.add_succ_r. reflexivity.
Qed.

Lemma mapi_Forall {A B : Type} (f : nat -> A -> B) (P : B -> Prop)
    (l : list A) (i : nat) :
  (forall k x, P (f k x)) -> Forall P (mapi f i l).
Proof.
  intros H. revert i. induction l as [|x l IH]; intros i; cbn;
    constructor; auto.
Qed.

Lemma scoreTrack_track (audioFeatures_ : list (option Features))
    (targetFeatures : Features) (index : nat) (track_ : SpotifyTrack) :
  track (scoreTrack audioFeatures_ targetFeatures index track_) = track_.
Proof.
  unfold scoreTrack.
  destruct (nth_error audioFeatures_ index) as [[features|]|]; reflexivity.
Qed.

Lemma scoreTracks_tracks (tracks : list SpotifyTrack)
    (audioFeatures_ : list (option Features)) (targetFeatures : Features) :
  map track (scoreTracks tracks audioFeatures_ targetFeatures) = tracks.
Proof.
  unfold scoreTracks. generalize 0%nat.
  induction tracks as [|x l IH]; intros i; cbn [mapi map]; [reflexivity|].
  rewrite scoreTrack_track, IH. reflexivity.
Qed.

Lemma scoreTracks_finite (tracks : list SpotifyTrack)
    (audioFeatures_ : list (option Features)) (targetFeatures : Features) :
  (forall y, prop targetFeatures tempo = Some y -> ~ y == 0) ->
  Forall finiteScore (scoreTracks tracks audioFeatures_ targetFeatures).
Proof.
  intros Ht. apply mapi_Forall. intros k x. unfold scoreTrack, finiteScore.
  destruct (nth_error audioFeatures_ k) as [[features|]|]; cbn [score];
    try (eexists; reflexivity).
  apply calculateTrackScore_finite. assumption.
Qed.

(** On finite scores the comparator orders [x] after [y] exactly when the
    score of [y] is the greater one. *)
Lemma comparefn_gt (x y : ScoredTrack) :
  finiteScore x -> finiteScore y ->
  (JS.gt (comparefn x y) (Num 0) = true <-> scoreValue x < scoreValue y).
Proof.
  intros [a Ha] [b Hb]. unfold comparefn, scoreValue. rewrite Ha, Hb.
  rewrite sub_Num, gt_Num_0. split; intros; lra.
Qed.

Lemma insert_Permutation (x : ScoredTrack) (l : list ScoredTrack) :
  Permutation (insert x l) (x :: l).
Proof.
  induction l as [|y l IH]; cbn [insert]; [reflexivity|].
  destruct (JS.gt (comparefn x y) (Num 0)); [|reflexivity].
  rewrite IH. apply perm_swap.
Qed.

Lemma sort_Permutation (l : list ScoredTrack) : Permutation (sort l) l.
Proof.
  induction l as [|x l IH]; cbn [sort]; [reflexivity|].
  rewrite insert_Permutation. apply perm_skip. assumption.
Qed.

Lemma sort_finite (l : list ScoredTrack) :
  Forall finiteScore l -> Forall finiteScore (sort l).
Proof.
  intros H. rewrite Forall_forall in *. intros x Hx. apply H.
  apply (Permutation_in _ (sort_Permutation l)). assumption.
Qed.

Lemma insert_sorted (x : ScoredTrack) (l : list ScoredTrack) :
  finiteScore x -> Forall finiteScore l ->
  StronglySorted scoreGe l -> StronglySorted scoreGe (insert x l).
Proof.
  intros Hx Hl Hs. induction Hs as [|y l Hs IH Hy]; cbn [insert].
  - repeat constructor.
  - inversion Hl as [|? ? Hfy Hfl]; subst.
    destruct (JS.gt (comparefn x y) (Num 0)) eqn:G.
    + apply comparefn_gt in G; [|assumption..].
      constructor; [apply IH; assumption|].
      rewrite Forall_forall in *. intros z Hz.
      apply (Permutation_in _ (insert_Permutation x l)) in Hz.
      destruct Hz as [<-|Hz]; [unfold scoreGe; lra | apply Hy; assumption].
    + assert (Hxy : scoreValue y <= scoreValue x).
      { apply Qnot_lt_le. intros C.
        apply (comparefn_gt x y Hx Hfy) in C. congruence. }
      constructor; [constructor; assumption|].
      constructor; [exact Hxy|].
      rewrite Forall_forall in *. intros z Hz.
      specialize (Hy z Hz). unfold scoreGe in *. lra.
Qed.

Lemma sort_sorted (l : list ScoredTrack) :
  Forall finiteScore l -> StronglySorted scoreGe (sort l).
Proof.
  intros H. induction H as [|x l Hx Hl IH]; cbn [sort]; [constructor|].
  apply insert_sorted; [assumption | apply sort_finite; assumption
                       | assumption].
Qed.

(** Insertion moves [x] past candidates of a greater score only, hence past
    none of its own score. *)
Lemma insert_hasScore (v : Q) (x : ScoredTrack) (l : list ScoredTrack) :
  finiteScore x -> Forall finiteScore l ->
  filter (hasScore v) (insert x l) = filter (hasScore v) (x :: l).
Proof.
  intros Hx Hl. induction Hl as [|y l Hy Hl IH]; cbn [insert];
    [reflexivity|].
  destruct (JS.gt (comparefn x y) (Num 0)) eqn:G; [|reflexivity].
  apply comparefn_gt in G; [|assumption..].
  cbn [filter] in *. rewrite IH.
  destruct (hasScore v x) eqn:Ex, (hasScore v y) eqn:Ey; try reflexivity.
  unfold hasScore in *. apply Qeq_bool_eq in Ex, Ey. lra.
Qed.

Lemma sort_stable (v : Q) (l : list ScoredTrack) :
  Forall finiteScore l ->
  filter (hasScore v) (sort l) = filter (hasScore v) l.
Proof.
  intros H. induction H as [|x l Hx Hl IH]; cbn [sort]; [reflexivity|].
  rewrite insert_hasScore by (try apply sort_finite; assumption).
  cbn [filter]. rewrite IH. reflexivity.
Qed.

(** In a ranking nothing of a greater score follows. *)
Lemma sorted_after (l before after : list ScoredTrack) (x y : ScoredTrack) :
  StronglySorted scoreGe l -> l = (before ++ x :: after)%list ->
  In y after -> scoreValue y <= scoreValue x.
Proof.
  intros Hs -> Hy. induction before as [|z before IH]; cbn in Hs.
  - apply StronglySorted_inv in Hs. destruct Hs as [_ H].
    rewrite Forall_forall in H. apply H. assumption.
  - apply StronglySorted_inv in Hs. apply IH. tauto.
Qed.

(** The scoring and ranking steps, on any list of audio features. Every
    candidate is scored, so there are as many scored candidates as
    candidates, in the ranking too; a candidate whose entry in the list is
    [null], or is missing, has score 0; and, the scores being finite, no
    candidate of positive score comes after a candidate of score 0 in the
    ranking. (The list [filterAndSelectTracks] passes comes from
    [getAudioFeatures] and holds no [null].) *)
Theorem scoreTracks_missing_features (tracks : list SpotifyTrack)
    (audioFeatures_ : list (option Features)) (targetFeatures : Features) :
  let scoredTracks := scoreTracks tracks audioFeatures_ targetFeatures in
  let ranking := sort scoredTracks in
  List.length scoredTracks = List.length tracks /\
  map track scoredTracks = tracks /\
  List.length ranking = List.length tracks /\
  Permutation ranking scoredTracks /\
  (forall index track_,
      nth_error tracks index = Some track_ ->
      nth_error audioFeatures_ index = Some None \/
      nth_error audioFeatures_ index = None ->
      nth_error scoredTracks index =
      Some {| track := track_; score := Num 0 |}) /\
  ((forall y, prop targetFeatures tempo = Some y -> ~ y == 0) ->
   forall before x after,
     ranking = (before ++ x :: after)%list ->
     score x = Num 0 ->
     forall y, In y after -> exists q, score y = Num q /\ ~ 0 < q).
Proof.
  intros scoredTracks ranking.
  assert (Hlen : List.length scoredTracks = List.length tracks)
    by apply mapi_length.
  assert (Hperm : Permutation ranking scoredTracks)
    by apply sort_Permutation.
  split; [exact Hlen|]. split; [apply scoreTracks_tracks|].
  split; [rewrite (Permutation_length Hperm); exact Hlen|].
  split; [exact Hperm|]. split.
  - intros index track_ Ht Hf. unfold scoredTracks, scoreTracks.
    rewrite mapi_nth_error, Ht. cbn [option_map Nat.add]. unfold scoreTrack.
    destruct Hf as [-> | ->]; reflexivity.
  - intros Htempo before x after E Hx y Hy.
    assert (Hfin : Forall finiteScore ranking).
    { apply sort_finite, scoreTracks_finite. assumption. }
    assert (Hs : StronglySorted scoreGe ranking).
    { apply sort_sorted, scoreTracks_finite. assumption. }
    pose proof (sorted_after ranking before after x y Hs E Hy) as Hle.
    rewrite Forall_forall in Hfin. destruct (Hfin y) as [q Hq].
    { rewrite E. apply in_or_app. right. right. assumption. }
    exists q. split; [assumption|].
    unfold scoreValue in Hle. rewrite Hx, Hq in Hle. lra.
Qed.

Lemma scoreTracks_missing_features_witness :
  let tracks := [mkTrack "a" "A" 1; mkTrack "b" "B" 2; mkTrack "c" "C" 3] in
  let audioFeatures_ := [Some onTarget; None] in
  let ranking := sort (scoreTracks tracks audioFeatures_ onTarget) in
  ranking =
    [ {| track := mkTrack "a" "A" 1;
         score := calculateTrackScore onTarget onTarget |};
      {| track := mkTrack "b" "B" 2; score := Num 0 |};
      {| track := mkTrack "c" "C" 3; score := Num 0 |} ] /\
  forall y,
    In y [ {| track := mkTrack "c" "C" 3; score := Num 0 |} ] ->
    exists q, score y = Num q /\ ~ 0 < q.
Proof.
  intros tracks audioFeatures_ ranking. split; [reflexivity|].
  destruct (scoreTracks_missing_features tracks audioFeatures_ onTarget)
    as (_ & _ & _ & _ & _ & H).
  apply (H ltac:(intros y E; injection E as <-; discriminate)
           [ {| track := mkTrack "a" "A" 1;
                score := calculateTrackScore onTarget onTarget |} ]
           {| track := mkTrack "b" "B" 2; score := Num 0 |}
           [ {| track := mkTrack "c" "C" 3; score := Num 0 |} ]);
    reflexivity.
Defined.

(** ** The shuffle *)

(** For a value of [Math.random] the index [j] of the shuffle lies in
    [0, i]. *)
Lemma shuffle_index_le (r : Q) (i : nat) :
  0 <= r < 1 ->
  (Z.to_nat (Qfloor (r * inject_Z (Z.of_nat (i + 1)))) <= i)%nat.
Proof.
  intros [H0 H1].
  set (n := Z.of_nat (i + 1)).
  assert (Hn : 0 < inject_Z n).
  { replace 0 with (inject_Z 0) by reflexivity. rewrite <- Zlt_Qlt.
    unfold n. lia. }
  assert (Hlt : (Qfloor (r * inject_Z n) < n)%Z).
  { rewrite Zlt_Qlt.
    apply Qle_lt_trans with (r * inject_Z n); [apply Qfloor_le | nra]. }
  unfold n in *. lia.
Qed.

Lemma set_nth_Permutation {A : Type} (l : list A) (j : nat) (b x : A) :
  nth_error l j = Some b -> Permutation (b :: set_nth j x l) (x :: l).
Proof.
  revert j. induction l as [|y l IH]; intros [|j]; cbn; try discriminate.
  - intros [= ->]. apply perm_swap.
  - intros H. rewrite perm_swap. rewrite (IH j H). apply perm_swap.
Qed.

(** Exchanging two elements of an array permutes it. *)
Lemma swap_Permutation {A : Type} (i j : nat) (l : list A) :
  (i < List.length l)%nat -> (j < List.length l)%nat ->
  Permutation (swap i j l) l /\
  nth_error (swap i j l) i = nth_error l j /\
  nth_error (swap i j l) j = nth_error l i.
Proof.
  intros Hi Hj. unfold swap.
  destruct (nth_error l i) as [a|] eqn:Ea;
    [|apply nth_error_None in Ea; lia].
  destruct (nth_error l j) as [b|] eqn:Eb;
    [|apply nth_error_None in Eb; lia].
  clear Hi Hj. revert i j Ea Eb.
  induction l as [|x l IH]; intros [|i] [|j]; cbn; try discriminate.
  - intros [= ->] [= ->]. repeat split; reflexivity.
  - intros [= ->] Hb. split; [apply set_nth_Permutation; assumption|].
    split; [reflexivity|]. clear IH. revert j Hb.
    induction l as [|y l IH]; intros [|j]; cbn; try discriminate;
      [reflexivity | apply IH].
  - intros Ha [= ->]. split; [apply set_nth_Permutation; assumption|].
    split; [|reflexivity]. clear IH. revert i Ha.
    induction l as [|y l IH]; intros [|i]; cbn; try discriminate;
      [reflexivity | apply IH].
  - intros Ha Hb. destruct (IH i j Ha Hb) as (H1 & H2 & H3).
    split; [apply perm_skip; assumption | split; assumption].
Qed.

Lemma swap_length {A : Type} (i j : nat) (l : list A) :
  (i < List.length l)%nat -> (j < List.length l)%nat ->
  List.length (swap i j l) = List.length l.
Proof.
  intros Hi Hj. apply Permutation_length, swap_Permutation; assumption.
Qed.

Section Shuffle.

Variable random : nat -> Q.
Hypothesis random_unit : forall n, 0 <= random n < 1.

(** The loop returns, with a permutation of the array, and sends no
    request. *)
Lemma shuffleLoop_Permutation {A : Type} (i : nat) (l : list A) (w : World) :
  (i < List.length l)%nat ->
  exists l' w',
    shuffleLoop random i l w = (Ok l', w') /\
    Permutation l' l /\
    requests w' = requests w.
Proof.
  revert l w. induction i as [|i IH]; intros l w Hi.
  - exists l, w. repeat split; reflexivity.
  - cbn [shuffleLoop]. unfold bind, Math_random.
    set (j := Z.to_nat _).
    assert (Hj : (j <= S i)%nat).
    { unfold j. apply shuffle_index_le, random_unit. }
    destruct (swap_Permutation (S i) j l) as (Hp & _); [lia..|].
    match goal with
    | |- context [shuffleLoop random i ?l1 ?w1] =>
        destruct (IH l1 w1) as (l' & w' & E & Hp' & Hr)
    end.
    { rewrite (Permutation_length Hp). lia. }
    exists l', w'. split; [exact E|]. split; [|exact Hr].
    rewrite Hp'. exact Hp.
Qed.

Lemma shuffleArray_Permutation {A : Type} (l : list A) (w : World) :
  exists l' w',
    shuffleArray random l w = (Ok l', w') /\
    Permutation l' l /\
    requests w' = requests w.
Proof.
  unfold shuffleArray. destruct l as [|x l].
  - exists [], w. repeat split; reflexivity.
  - apply shuffleLoop_Permutation. cbn. lia.
Qed.

End Shuffle.

(** ** Selection *)

(** C9. For a non-empty candidate list whose audio features the Web API
    delivers, a target tempo other than 0 and values of the random source
    in [0, 1): the ranking is a permutation of the scored candidates, of
    finite scores, in descending order of score, candidates of equal score
    in the order of the candidate list; [filterAndSelectTracks] returns a
    permutation of the tracks of the first [targetCount] entries of the
    ranking, of length [min(targetCount, number of candidates)]. *)
Theorem filterAndSelectTracks_spec (random : nat -> Q) (api : WebApi)
    (tracks : list SpotifyTrack) (targetFeatures : Features)
    (accessToken : string) (targetCount : nat) (w : World)
    (response : list (option Features)) :
  tracks <> [] ->
  (forall n, 0 <= random n < 1) ->
  audio_features api accessToken (String.concat "," (map id tracks))
  = Some response ->
  (forall y, prop targetFeatures tempo = Some y -> ~ y == 0) ->
  let scoredTracks :=
    scoreTracks tracks (filter non_null response) targetFeatures in
  let ranking := sort scoredTracks in
  Permutation ranking scoredTracks /\
  Forall finiteScore ranking /\
  StronglySorted scoreGe ranking /\
  (forall v, filter (hasScore v) ranking = filter (hasScore v) scoredTracks)
  /\
  exists selected w',
    filterAndSelectTracks random api tracks targetFeatures accessToken
      targetCount w = (Ok selected, w') /\
    Permutation selected (map track (firstn targetCount ranking)) /\
    List.length selected = Nat.min targetCount (List.length tracks).
Proof.
  intros Hne Hrandom Hresponse Htempo scoredTracks ranking.
  assert (Hfin : Forall finiteScore scoredTracks)
    by (apply scoreTracks_finite; assumption).
  assert (Hperm : Permutation ranking scoredTracks)
    by apply sort_Permutation.
  split; [exact Hperm|]. split; [apply sort_finite; assumption|].
  split; [apply sort_sorted; assumption|].
  split; [intros v; apply sort_stable; assumption|].
  unfold filterAndSelectTracks.
  destruct tracks as [|track_ tracks']; [contradiction|].
  cbn [List.length Nat.eqb]. unfold bind.
  rewrite (getAudioFeatures_response _ _ _ _ _ Hresponse).
  fold scoredTracks. fold ranking.
  match goal with
  | |- context [shuffleArray random ?l ?w1] =>
      destruct (shuffleArray_Permutation random Hrandom l w1)
        as (selected & w' & E & Hp & _)
  end.
  exists selected, w'. split; [exact E|]. split; [exact Hp|].
  rewrite (Permutation_length Hp), length_map, length_firstn.
  rewrite (Permutation_length Hperm). unfold scoredTracks, scoreTracks.
  rewrite mapi_length. reflexivity.
Qed.

Lemma filterAndSelectTracks_spec_witness :
  let random := fun n : nat => 1 # Pos.of_nat (n + 2) in
  let scoredTracks := scoreTracks twoTracks [Some onTarget] onTarget in
  exists selected w',
    filterAndSelectTracks random nullFirst twoTracks onTarget "token" 15
      (mkWorld 0 [] []) = (Ok selected, w') /\
    Permutation selected (map track (firstn 15 (sort scoredTracks))) /\
    List.length selected = Nat.min 15 (List.length twoTracks).
Proof.
  intros random scoredTracks.
  apply (filterAndSelectTracks_spec random nullFirst twoTracks onTarget
           "token" 15 (mkWorld 0 [] []) [None; Some onTarget]).
  - discriminate.
  - intros n. unfold random, Qle, Qlt. cbn. lia.
  - reflexivity.
  - intros y E. injection E as <-. discriminate.
Defined.

(** ** The requests of a run *)

Lemma sends_ret {A : Type} (a : A) : sends (ret a).
Proof. intros w. exists []. cbn. rewrite app_nil_r. reflexivity. Qed.

Lemma sends_throw {A : Type} (e : error) : sends (@throw A e).
Proof. intros w. exists []. cbn. rewrite app_nil_r. reflexivity. Qed.

Lemma sends_console_log (line : string) : sends (console_log line).
Proof. intros w. exists []. cbn. rewrite app_nil_r. reflexivity. Qed.

Lemma sends_axios {A : Type} (r : Request) (response : option A) :
  sends (axios r response).
Proof. intros w. exists [r]. unfold axios. destruct response; reflexivity. Qed.

Lemma sends_bind {A B : Type} (c : M A) (k : A -> M B) :
  sends c -> (forall a, sends (k a)) -> sends (bind c k).
Proof.
  intros Hc Hk w. unfold bind. destruct (Hc w) as [sent1 E1].
  destruct (c w) as [[a|e] w1]; cbn [snd] in *.
  - destruct (Hk a w1) as [sent2 E2]. exists (sent1 ++ sent2)%list.
    rewrite E2, E1, app_assoc. reflexivity.
  - exists sent1. assumption.
Qed.

Lemma sends_try_catch {A : Type} (body : M A) (handler : error -> M A) :
  sends body -> (forall e, sends (handler e)) ->
  sends (try_catch body handler).
Proof.
  intros Hc Hk w. unfold try_catch. destruct (Hc w) as [sent1 E1].
  destruct (body w) as [[a|e] w1]; cbn [snd] in *.
  - exists sent1. assumption.
  - destruct (Hk e w1) as [sent2 E2]. exists (sent1 ++ sent2)%list.
    rewrite E2, E1, app_assoc. reflexivity.
Qed.

Lemma sends_Math_random (random : nat -> Q) : sends (Math_random random).
Proof. intros w. exists []. cbn. rewrite app_nil_r. reflexivity. Qed.

Create HintDb sends.

#[local] Hint Resolve sends_ret sends_throw sends_console_log sends_axios
  sends_Math_random : sends.

Ltac solve_sends :=
  repeat first
    [ progress intros
    | apply sends_bind
    | apply sends_try_catch
    | solve [auto with sends]
    | match goal with
      | |- sends (match ?x with _ => _ end) => destruct x
      | |- sends (if ?b then _ else _) => destruct b
      end ].

Lemma filterGenres_length (profile : MoodMusicProfile)
    (availableGenres : list string) :
  (List.length (filterGenres profile availableGenres) <= 3)%nat.
Proof.
  unfold filterGenres.
  match goal with
  | |- context [firstn 3 ?l] =>
      pose proof (firstn_le_length 3 l); destruct (firstn 3 l)
  end; cbn in *; lia.
Qed.

Section Requests.

Variable random : nat -> Q.
Variable api : WebApi.
Variable today : string.
Variable generatePlaylistDescription : MoodAnalysis -> string.

Lemma sends_shuffleLoop {A : Type} (i : nat) (l : list A) :
  sends (shuffleLoop random i l).
Proof.
  revert l. induction i as [|i IH]; intros l; cbn [shuffleLoop]; solve_sends.
Qed.

Lemma sends_filterAndSelectTracks (tracks : list SpotifyTrack)
    (targetFeatures : Features) (accessToken : string) (targetCount : nat) :
  sends (filterAndSelectTracks random api tracks targetFeatures accessToken
           targetCount).
Proof.
  unfold filterAndSelectTracks, getAudioFeatures, console_error, shuffleArray.
  solve_sends. apply sends_shuffleLoop.
Qed.

Lemma sends_searchLoop (accessToken : string) (queries : list string)
    (allTracks : list SpotifyTrack) :
  sends (searchLoop api accessToken queries allTracks).
Proof.
  revert allTracks.
  induction queries as [|query queries IH]; intros allTracks;
    cbn [searchLoop]; unfold searchTracks, console_error; solve_sends.
Qed.

(** [generatePlaylist] and [searchByMoodKeywords] only add requests. *)
Lemma sends_generatePlaylist (moodAnalysis : MoodAnalysis)
    (accessToken userId : string) :
  sends (generatePlaylist random api today generatePlaylistDescription
           moodAnalysis accessToken userId).
Proof.
  unfold generatePlaylist, generatePlaylistBody, getAvailableGenres,
    calculateTargetFeatures, getTargetValue, getRecommendations,
    generatePlaylistName, createPlaylist, addTracksToPlaylist, console_error.
  solve_sends. apply sends_filterAndSelectTracks.
Qed.

Lemma sends_searchByMoodKeywords (moodAnalysis : MoodAnalysis)
    (accessToken : string) :
  sends (searchByMoodKeywords api moodAnalysis accessToken).
Proof.
  unfold searchByMoodKeywords. solve_sends. apply sends_searchLoop.
Qed.

Lemma try_catch_bind {A B : Type} (c : M A) (k : A -> M B)
    (handler : error -> M B) (w : World) :
  try_catch (bind c k) handler w =
  match c w with
  | (Ok a, w1) => try_catch (k a) handler w1
  | (Throw e, w1) => handler e w1
  end.
Proof. unfold try_catch, bind. destruct (c w) as [[a|e] w1]; reflexivity. Qed.

Lemma getAvailableGenres_run (accessToken : string) (w : World) :
  exists w1,
    getAvailableGenres api accessToken w =
    (Ok match available_genre_seeds api accessToken with
        | Some availableGenres => availableGenres
        | None => []
        end, w1) /\
    requests w1 = (requests w ++ [GetAvailableGenreSeeds accessToken])%list.
Proof.
  unfold getAvailableGenres, try_catch, axios.
  destruct (available_genre_seeds api accessToken);
    eexists; split; reflexivity.
Qed.

Lemma getRecommendations_run (accessToken : string)
    (seedGenres : list string) (targetFeatures : Features) (limit_ : Z)
    (w : World) :
  exists params outcome w1,
    getRecommendations api accessToken seedGenres targetFeatures limit_ w =
    (outcome, w1) /\
    requests w1 =
    (requests w ++ [GetRecommendations accessToken params])%list /\
    seed_genres params = String.concat "," (firstn 5 seedGenres) /\
    limit params = limit_.
Proof.
  unfold getRecommendations, try_catch, axios.
  match goal with
  | |- context [recommendations api accessToken ?p] =>
      exists p; destruct (recommendations api accessToken p)
  end; eexists; eexists; repeat split; reflexivity.
Qed.

(** For a known emotion [generatePlaylist] first asks for the available
    genres, then for 30 recommendations, seeded with the genres
    [filterGenres] selects. *)
Lemma generatePlaylist_seed_genres (moodAnalysis : MoodAnalysis)
    (profile : MoodMusicProfile) (accessToken userId : string) (w : World) :
  moodProfiles_get (primaryEmotion moodAnalysis) = Profile profile ->
  let availableGenres :=
    match available_genre_seeds api accessToken with
    | Some availableGenres => availableGenres
    | None => []
    end in
  exists params sent,
    requests
      (snd (generatePlaylist random api today generatePlaylistDescription
              moodAnalysis accessToken userId w)) =
    (requests w ++
     GetAvailableGenreSeeds accessToken ::
     GetRecommendations accessToken params :: sent)%list /\
    seed_genres params =
    String.concat "," (filterGenres profile availableGenres) /\
    limit params = 30%Z.
Proof.
  intros Hp availableGenres.
  unfold generatePlaylist, generatePlaylistBody. rewrite Hp.
  rewrite try_catch_bind.
  destruct (getAvailableGenres_run accessToken w) as (w1 & -> & E1).
  fold availableGenres. rewrite try_catch_bind.
  destruct (calculateTargetFeatures_run random (audioFeatures profile)
              (confidence moodAnalysis) w1) as (targets & -> & _).
  rewrite try_catch_bind.
  match goal with
  | |- context [getRecommendations api accessToken ?g targets 30 ?w2] =>
      destruct (getRecommendations_run accessToken g targets 30 w2)
        as (params & outcome & w3 & -> & E3 & Eseed & Elimit)
  end.
  cbn [requests] in E3. rewrite E1 in E3.
  assert (Eseed' : seed_genres params =
                   String.concat "," (filterGenres profile availableGenres)).
  { rewrite Eseed. f_equal. apply firstn_all2.
    pose proof (filterGenres_length profile availableGenres). lia. }
  exists params.
  match goal with
  | |- exists sent, requests (snd ?run) = _ /\ _ =>
      assert (Hsent : exists sent,
                 requests (snd run) = (requests w3 ++ sent)%list)
  end.
  2: { destruct Hsent as [sent Hsent]. exists sent.
       split; [|split; assumption].
       rewrite Hsent, E3, <- !app_assoc. reflexivity. }
  destruct outcome as [recommendedTracks|e].
  - match goal with
    | |- context [try_catch ?body ?handler w3] =>
        assert (Hs : sends (try_catch body handler)); [|apply Hs]
    end.
    unfold generatePlaylistName, createPlaylist, addTracksToPlaylist,
      console_error.
    solve_sends. apply sends_filterAndSelectTracks.
  - match goal with
    | |- context [bind ?c ?k w3] =>
        assert (Hs : sends (bind c k)); [|apply Hs]
    end.
    unfold console_error. solve_sends.
Qed.

End Requests.


(** ** The scores of the program *)







(** Outside the calls of the program the score can leave [0, 1]: against a
    negative target tempo, which [calculateTargetFeatures] never computes,
    an actual tempo of 100 with a target of -100 scores 3, and a tempo of 0
    on both sides gives NaN. *)
Example calculateTrackScore_negative_tempo :
  exists q,
    calculateTrackScore (mkFeatures None None None (Some 100))
                        (mkFeatures None None None (Some (-100))) = Num q /\
    q == 3.
Proof. eexists. split; [vm_compute; reflexivity | reflexivity]. Qed.

Example calculateTrackScore_zero_tempo :
  calculateTrackScore (mkFeatures None None None (Some 0))
                      (mkFeatures None None None (Some 0)) = NaN.
Proof. reflexivity. Qed.

(** ** A candidate without audio features, in the program *)

(** C2, at the candidates [twoTracks] and the Web API [nullFirst], which
    answers [null] for track a and features equal to the target for track
    b. [getAudioFeatures] drops the [null], so in [filterAndSelectTracks]
    track a, the candidate without audio features, is scored with the
    features of track b: its score is 1, not 0, and it is ranked first,
    before track b, which finds [undefined] and gets 0. With one track to
    select, track a is returned and track b is dropped. *)
Theorem filterAndSelectTracks_null_entry (random : nat -> Q) (w : World) :
  audio_features nullFirst "token" (String.concat "," (map id twoTracks))
  = Some [None; Some onTarget] /\
  exists audioFeatures_ w' q,
    getAudioFeatures nullFirst "token" (map id twoTracks) w =
    (Ok audioFeatures_, w') /\
    scoreTracks twoTracks audioFeatures_ onTarget =
    [ {| track := mkTrack "a" "A" 1000; score := Num q |};
      {| track := mkTrack "b" "B" 2000; score := Num 0 |} ] /\
    q == 1 /\
    sort (scoreTracks twoTracks audioFeatures_ onTarget) =
    scoreTracks twoTracks audioFeatures_ onTarget /\
    fst (filterAndSelectTracks random nullFirst twoTracks onTarget "token" 1
           w) = Ok [mkTrack "a" "A" 1000].
Proof.
  split; [reflexivity|].
  eexists. eexists. eexists. split.
  - apply getAudioFeatures_response. reflexivity.
  - split; [reflexivity|]. split; [reflexivity|].
    split; reflexivity.
Qed.

(** * Further properties *)

(** ** The audio features a request delivers *)

(** X1. When the request succeeds, [getAudioFeatures] returns the entries
    of the response that are not [null], in their order: none is lost, the
    result holds no [null], and it is the response itself exactly when the
    response holds no [null]. *)
Theorem getAudioFeatures_spec (api : WebApi) (accessToken : string)
    (trackIds : list string) (response : list (option Features))
    (w : World) :
  audio_features api accessToken (String.concat "," trackIds)
  = Some response ->
  exists audioFeatures_ w',
    getAudioFeatures api accessToken trackIds w = (Ok audioFeatures_, w') /\
    subsequence audioFeatures_ response /\
    Forall (fun entry => entry <> None) audioFeatures_ /\
    (forall features,
        In (Some features) response -> In (Some features) audioFeatures_) /\
    (audioFeatures_ = response <->
     Forall (fun entry => entry <> None) response).
Proof.
  intros H. rewrite (getAudioFeatures_response _ _ _ _ _ H).
  eexists. eexists. split; [reflexivity|].
  split; [apply filter_subsequence|]. split; [|split].
  - apply Forall_forall. intros entry Hin. apply filter_In in Hin.
    destruct Hin as [_ Hn]. destruct entry; [discriminate | discriminate Hn].
  - intros features Hin. apply filter_In. split; [assumption | reflexivity].
  - split.
    + intros E. rewrite <- E. apply Forall_forall. intros entry Hin.
      apply filter_In in Hin. destruct Hin as [_ Hn].
      destruct entry; [discriminate | discriminate Hn].
    + clear H. intros Hall. induction Hall as [|entry l Hentry Hl IH];
        cbn [filter]; [reflexivity|].
      destruct entry as [features|]; [|contradiction].
      cbn [non_null]. rewrite IH. reflexivity.
Qed.

Lemma getAudioFeatures_spec_witness :
  exists audioFeatures_ w',
    getAudioFeatures nullFirst "token" (map id twoTracks) (mkWorld 0 [] [])
    = (Ok audioFeatures_, w') /\
    subsequence audioFeatures_ [None; Some onTarget] /\
    Forall (fun entry => entry <> None) audioFeatures_ /\
    (forall features,
        In (Some features) [None; Some onTarget] ->
        In (Some features) audioFeatures_) /\
    (audioFeatures_ = [None; Some onTarget] <->
     Forall (fun entry => entry <> None) [None; Some onTarget]).
Proof.
  apply (getAudioFeatures_spec nullFirst "token" (map id twoTracks)).
  reflexivity.
Defined.

(** ** Targets strictly inside their range *)

Lemma strictness_bounds (c : Q) : c <= 1 -> 0.3 <= Qmax 0.3 c <= 1.
Proof.
  intros Hc. split; [apply Q.le_max_l | apply Q.max_lub; [|assumption]].
  discriminate.
Qed.

(** For a value of [Math.random] and a confidence of at most 1 the clamp
    of [getTargetValue] changes nothing. *)
Lemma targetValue_unclamped (range : Range) (c r : Q) :
  min range <= max range -> c <= 1 -> 0 <= r < 1 ->
  let width := max range - min range in
  targetValue range (Qmax 0.3 c) r ==
  midpoint range + (r - 0.5) * variance range (Qmax 0.3 c) * 2 /\
  min range + 0.15 * width <= targetValue range (Qmax 0.3 c) r /\
  targetValue range (Qmax 0.3 c) r <= max range - 0.15 * width.
Proof.
  intros Hrange Hc [Hr0 Hr1] width.
  pose proof (strictness_bounds c Hc) as [Hs0 Hs1].
  set (s := Qmax 0.3 c) in *.
  assert (Hmid : midpoint range == (min range + max range) * 0.5)
    by (unfold midpoint; field).
  assert (Hvar : variance range s == width * (1 - s) * 0.5) by reflexivity.
  set (x := midpoint range + (r - 0.5) * variance range s * 2).
  assert (Hw : 0 <= width) by (unfold width; lra).
  set (v := width * (1 - s)).
  assert (Hv : 0 <= v <= 0.7 * width) by (unfold v; split; nra).
  assert (Hrv : - (0.5 * v) <= (r - 0.5) * v <= 0.5 * v) by (split; nra).
  assert (Hx : min range + 0.15 * width <= x <= max range - 0.15 * width).
  { assert (Ex : x == (min range + max range) * 0.5 + (r - 0.5) * v).
    { unfold x. rewrite Hmid, Hvar. unfold v. ring. }
    rewrite Ex. unfold width in *. split; lra. }
  assert (E : targetValue range s r == x).
  { unfold targetValue. fold x. apply clamp_inside. unfold width in *.
    split; lra. }
  rewrite E. split; [reflexivity | exact Hx].
Qed.

(** X2. For a well-formed set of ranges, a confidence of at most 1 and
    values of the random source in [0, 1), the clamp of [getTargetValue]
    never acts: each target is the midpoint of its range displaced by
    [(2 r - 1) * variance], and keeps a margin of 15 percent of the width
    of the range from both ends. *)
Theorem calculateTargetFeatures_unclamped (random : nat -> Q)
    (ranges : AudioFeatureRanges) (c : Q) (w : World) :
  wellFormed ranges -> c <= 1 -> (forall n, 0 <= random n < 1) ->
  exists targets w',
    calculateTargetFeatures random ranges c w = (Ok targets, w') /\
    forall feature,
      let range := range_of ranges feature in
      let r := random (drawOf feature + random_pos w)%nat in
      let width := max range - min range in
      exists v,
        prop targets feature = Some v /\
        v == midpoint range + (2 * r - 1) * variance range (Qmax 0.3 c) /\
        min range + 0.15 * width <= v <= max range - 0.15 * width.
Proof.
  intros Hwf Hc Hrandom.
  destruct (calculateTargetFeatures_run random ranges c w)
    as (targets & E & Ht).
  exists targets. eexists. split; [exact E|].
  intros feature range r width. eexists. split; [apply Ht|].
  destruct (targetValue_unclamped range c r (Hwf feature) Hc (Hrandom _))
    as (E1 & H1 & H2).
  split; [|split; assumption].
  transitivity (midpoint range + (r - 0.5) * variance range (Qmax 0.3 c) * 2);
    [exact E1 | ring].
Qed.

Lemma calculateTargetFeatures_unclamped_witness :
  exists targets w',
    calculateTargetFeatures (fun _ => 0.25) (audioFeatures profile_sad) 0.5
      (mkWorld 0 [] []) = (Ok targets, w') /\
    forall feature,
      let range := range_of (audioFeatures profile_sad) feature in
      let width := max range - min range in
      exists v,
        prop targets feature = Some v /\
        v == midpoint range + (2 * 0.25 - 1) * variance range (Qmax 0.3 0.5)
        /\ min range + 0.15 * width <= v <= max range - 0.15 * width.
Proof.
  apply (calculateTargetFeatures_unclamped (fun _ => 0.25)
           (audioFeatures profile_sad) 0.5 (mkWorld 0 [] [])).
  - intros []; cbn; intros C; discriminate C.
  - intros C; discriminate C.
  - intros _. split; [intros C; discriminate C | reflexivity].
Defined.

(** Every range of the six profiles starts at 0 or above, and is not a
    single point. *)
Lemma moodProfiles_ranges (emotion : string) (profile : MoodMusicProfile)
    (feature : Feature) :
  assoc emotion moodProfiles = Some profile ->
  let range := range_of (audioFeatures profile) feature in
  0 <= min range /\ min range < max range.
Proof.
  intros H range. subst range.
  apply assoc_In in H. unfold moodProfiles in H. cbn [In] in H.
  repeat (destruct H as [[= _ <-] | H];
          [ destruct feature;
            (split;
             [apply Qle_bool_iff; reflexivity | apply Qlt_alt; reflexivity])
          | ]).
  contradiction.
Qed.

Lemma if_truthy_positive (v : Q) : 0 < v -> if_truthy (Some v) = Some v.
Proof.
  intros Hv. unfold if_truthy, JS.truthy.
  destruct (Qeq_bool v 0) eqn:E; [|reflexivity].
  apply Qeq_bool_eq in E. lra.
Qed.

(** X3. For each of the six profiles, a confidence of at most 1 and values
    of the random source in [0, 1), the four targets are positive, so the
    truthiness tests of [getRecommendations] let all four through: the
    request for recommendations carries each target as computed. *)
Theorem getRecommendations_all_targets (random : nat -> Q) (api : WebApi)
    (emotion : string) (profile : MoodMusicProfile) (c : Q)
    (accessToken : string) (seedGenres : list string) (limit_ : Z)
    (w w1 w2 : World) (targets : Features) :
  assoc emotion moodProfiles = Some profile ->
  c <= 1 ->
  (forall n, 0 <= random n < 1) ->
  calculateTargetFeatures random (audioFeatures profile) c w
  = (Ok targets, w1) ->
  (forall feature, exists v, prop targets feature = Some v /\ 0 < v) /\
  exists params outcome w3,
    getRecommendations api accessToken seedGenres targets limit_ w2
    = (outcome, w3) /\
    requests w3 = (requests w2 ++ [GetRecommendations accessToken params])%list
    /\ target_energy params = f_energy targets
    /\ target_valence params = f_valence targets
    /\ target_danceability params = f_danceability targets
    /\ target_tempo params = f_tempo targets.
Proof.
  intros Hp Hc Hrandom Hrun.
  assert (Hpos : forall feature,
             exists v, prop targets feature = Some v /\ 0 < v).
  { intros feature.
    destruct (calculateTargetFeatures_run random (audioFeatures profile) c w)
      as (targets' & E & Ht).
    rewrite E in Hrun. injection Hrun as -> _. eexists. split; [apply Ht|].
    pose proof (moodProfiles_ranges emotion profile feature Hp) as [H0 H1].
    cbv zeta in H0, H1.
    destruct (targetValue_unclamped (range_of (audioFeatures profile) feature)
                c (random (drawOf feature + random_pos w)%nat))
      as (_ & Hlow & _); [lra | assumption | apply Hrandom |].
    cbv zeta in Hlow. lra. }
  split; [exact Hpos|].
  unfold getRecommendations, try_catch, axios.
  match goal with
  | |- context [recommendations api accessToken ?p] =>
      exists p; destruct (recommendations api accessToken p)
  end;
    (eexists; eexists; split; [reflexivity|]; split; [reflexivity|];
     cbn [target_energy target_valence target_danceability target_tempo];
     destruct (Hpos energy) as (ve & Ee & Hve);
     destruct (Hpos valence) as (vv & Ev & Hvv);
     destruct (Hpos danceability) as (vd & Ed & Hvd);
     destruct (Hpos tempo) as (vt & Et & Hvt);
     cbn [prop] in Ee, Ev, Ed, Et; rewrite Ee, Ev, Ed, Et;
     rewrite !if_truthy_positive by assumption; repeat split).
Qed.

Lemma getRecommendations_all_targets_witness :
  let random := fun _ : nat => 0.25 in
  exists targets w1,
    calculateTargetFeatures random (audioFeatures profile_sad) 0.5
      (mkWorld 0 [] []) = (Ok targets, w1) /\
    forall feature, exists v, prop targets feature = Some v /\ 0 < v.
Proof.
  intros random. eexists. eexists. split; [reflexivity|].
  eapply getRecommendations_all_targets
    with (random := random) (api := nullFirst) (emotion := "sad"%string)
         (c := 0.5) (accessToken := "token"%string) (seedGenres := [])
         (limit_ := 30%Z) (w := mkWorld 0 [] []) (w2 := mkWorld 0 [] []).
  - reflexivity.
  - intros C; discriminate C.
  - intros n. split; [intros C; discriminate C | reflexivity].
  - reflexivity.
Defined.

(** ** Runs of [generatePlaylist] *)

Section Pipeline.

Variable random : nat -> Q.
Variable api : WebApi.
Variable today : string.
Variable generatePlaylistDescription : MoodAnalysis -> string.

Hypothesis random_unit : forall n, 0 <= random n < 1.

Lemma filterAndSelectTracks_run (tracks : list SpotifyTrack)
    (targetFeatures : Features) (accessToken : string) (targetCount : nat)
    (w : World) (response : list (option Features)) :
  tracks <> [] ->
  audio_features api accessToken (String.concat "," (map id tracks))
  = Some response ->
  exists selected w',
    filterAndSelectTracks random api tracks targetFeatures accessToken
      targetCount w = (Ok selected, w') /\
    Permutation selected
      (map track
         (firstn targetCount
            (sort (scoreTracks tracks (filter non_null response)
                     targetFeatures)))) /\
    requests w' =
    (requests w ++
     [GetAudioFeatures accessToken
        (String.concat "," (map id tracks))])%list.
Proof.
  intros Hne Hresponse. unfold filterAndSelectTracks.
  destruct tracks as [|track_ tracks']; [contradiction|].
  cbn [List.length Nat.eqb]. unfold bind.
  rewrite (getAudioFeatures_response _ _ _ _ _ Hresponse).
  match goal with
  | |- context [shuffleArray random ?l ?w1] =>
      destruct (shuffleArray_Permutation random random_unit l w1)
        as (selected & w' & E & Hp & Hr)
  end.
  exists selected, w'. split; [exact E|]. split; [exact Hp|].
  rewrite Hr. reflexivity.
Qed.

Lemma generatePlaylistName_run (moodAnalysis : MoodAnalysis) (w : World) :
  exists playlistName w',
    generatePlaylistName random today moodAnalysis w = (Ok playlistName, w')
    /\ requests w' = requests w.
Proof.
  unfold generatePlaylistName, bind, Math_random, ret.
  eexists. eexists. split; reflexivity.
Qed.

Lemma createPlaylist_run (accessToken userId name_ description : string)
    (isPublic : bool) (w : World) :
  exists outcome w',
    createPlaylist api accessToken userId name_ description isPublic w
    = (outcome, w') /\
    requests w' =
    (requests w ++
     [PostPlaylist accessToken userId name_ description isPublic])%list /\
    match create_playlist api accessToken userId name_ description isPublic
    with
    | Some playlist => outcome = Ok playlist
    | None => outcome = Throw (Error "Failed to create playlist")
    end.
Proof.
  unfold createPlaylist, try_catch, axios.
  destruct (create_playlist api accessToken userId name_ description isPublic);
    eexists; eexists; repeat split; reflexivity.
Qed.

Lemma addTracksToPlaylist_run (accessToken playlistId : string)
    (trackUris : list string) (w : World) :
  exists outcome w',
    addTracksToPlaylist api accessToken playlistId trackUris w
    = (outcome, w') /\
    requests w' =
    (requests w ++
     [PostPlaylistTracks accessToken playlistId trackUris])%list /\
    match add_tracks api accessToken playlistId trackUris with
    | Some _ => outcome = Ok tt
    | None => outcome = Throw (Error "Failed to add tracks to playlist")
    end.
Proof.
  unfold addTracksToPlaylist, try_catch, axios.
  destruct (add_tracks api accessToken playlistId trackUris) as [[]|];
    eexists; eexists; repeat split; reflexivity.
Qed.

Lemma getRecommendations_outcome (accessToken : string)
    (seedGenres : list string) (targetFeatures : Features) (limit_ : Z)
    (w : World) :
  exists params outcome w1,
    getRecommendations api accessToken seedGenres targetFeatures limit_ w =
    (outcome, w1) /\
    requests w1 =
    (requests w ++ [GetRecommendations accessToken params])%list /\
    match recommendations api accessToken params with
    | Some tracks => outcome = Ok tracks
    | None => outcome = Throw (Error "Failed to get recommendations")
    end.
Proof.
  unfold getRecommendations, try_catch, axios.
  match goal with
  | |- context [recommendations api accessToken ?p] =>
      exists p; destruct (recommendations api accessToken p)
  end; eexists; eexists; repeat split; reflexivity.
Qed.

(** The handler of [generatePlaylist]. *)
Lemma generatePlaylist_handler (e : error) (w : World) :
  exists w',
    bind (console_error "Error generating playlist:" e)
      (fun _ => @throw GeneratedPlaylist (Error "Failed to generate playlist"))
      w = (Throw (Error "Failed to generate playlist"), w') /\
    requests w' = requests w.
Proof. eexists. split; reflexivity. Qed.


(** X5. No rollback: when the playlist has been created and the addition
    of the tracks fails, [generatePlaylist] fails with its generic error,
    and the request that created the playlist has been sent; the failed
    addition is the last request. *)
Theorem generatePlaylist_no_rollback (moodAnalysis : MoodAnalysis)
    (profile : MoodMusicProfile) (accessToken userId : string) (w : World)
    (recommended : list SpotifyTrack) (response : list (option Features))
    (created : Playlist) :
  moodProfiles_get (primaryEmotion moodAnalysis) = Profile profile ->
  (forall params,
      recommendations api accessToken params = Some recommended) ->
  recommended <> [] ->
  audio_features api accessToken (String.concat "," (map id recommended))
  = Some response ->
  (forall name_ description,
      create_playlist api accessToken userId name_ description false
      = Some created) ->
  (forall uris, add_tracks api accessToken (pl_id created) uris = None) ->
  exists w' params playlistName uris,
    generatePlaylist random api today generatePlaylistDescription
      moodAnalysis accessToken userId w =
    (Throw (Error "Failed to generate playlist"), w') /\
    requests w' =
    (requests w ++
     [ GetAvailableGenreSeeds accessToken;
       GetRecommendations accessToken params;
       GetAudioFeatures accessToken
         (String.concat "," (map id recommended));
       PostPlaylist accessToken userId playlistName
         (generatePlaylistDescription moodAnalysis) false;
       PostPlaylistTracks accessToken (pl_id created) uris ])%list.
Proof.
  intros Hp Hrec Hne Hfeat Hcreate Hadd.
  unfold generatePlaylist, generatePlaylistBody. rewrite Hp.
  rewrite try_catch_bind.
  destruct (getAvailableGenres_run api accessToken w) as (w1 & -> & E1).
  rewrite try_catch_bind.
  destruct (calculateTargetFeatures_run random (audioFeatures profile)
              (confidence moodAnalysis) w1) as (targets & -> & _).
  rewrite try_catch_bind.
  match goal with
  | |- context [getRecommendations api accessToken ?g targets 30 ?w2] =>
      destruct (getRecommendations_outcome accessToken g targets 30 w2)
        as (params & outcome & w3 & -> & E3 & Ho)
  end.
  rewrite Hrec in Ho. subst outcome. rewrite try_catch_bind.
  destruct (filterAndSelectTracks_run recommended targets accessToken 15 w3
              response Hne Hfeat) as (selected & w4 & -> & Hperm & E4).
  rewrite try_catch_bind.
  destruct (generatePlaylistName_run moodAnalysis w4)
    as (playlistName & w5 & -> & E5).
  rewrite try_catch_bind.
  destruct (createPlaylist_run accessToken userId playlistName
              (generatePlaylistDescription moodAnalysis) false w5)
    as (outcome & w6 & -> & E6 & Ho).
  rewrite Hcreate in Ho. subst outcome. rewrite try_catch_bind.
  match goal with
  | |- context [addTracksToPlaylist api accessToken ?i ?u w6] =>
      destruct (addTracksToPlaylist_run accessToken i u w6)
        as (outcome & w7 & -> & E7 & Ho);
      rewrite Hadd in Ho; subst outcome;
      destruct (generatePlaylist_handler
                  (Error "Failed to add tracks to playlist") w7)
        as (w8 & -> & E8);
      exists w8, params, playlistName, u
  end.
  split; [reflexivity|].
  rewrite E8, E7, E6, E5, E4, E3. cbn [requests]. rewrite E1.
  rewrite <- !app_assoc. reflexivity.
Qed.

(** X6. For a known emotion, when the recommendations come back empty,
    [generatePlaylist] fails with its generic error after two requests,
    the available genres and the recommendations: no audio features are
    asked for and no playlist is created. The console names the cause. *)
Theorem generatePlaylist_no_recommendations (moodAnalysis : MoodAnalysis)
    (profile : MoodMusicProfile) (accessToken userId : string) (w : World) :
  moodProfiles_get (primaryEmotion moodAnalysis) = Profile profile ->
  (forall params, recommendations api accessToken params = Some []) ->
  exists w' params lines,
    generatePlaylist random api today generatePlaylistDescription
      moodAnalysis accessToken userId w =
    (Throw (Error "Failed to generate playlist"), w') /\
    requests w' =
    (requests w ++
     [ GetAvailableGenreSeeds accessToken;
       GetRecommendations accessToken params ])%list /\
    console w' =
    (lines ++
     ["Error generating playlist: No tracks found for the given mood"
      %string])%list.
Proof.
  intros Hp Hrec.
  unfold generatePlaylist, generatePlaylistBody. rewrite Hp.
  rewrite try_catch_bind.
  destruct (getAvailableGenres_run api accessToken w) as (w1 & -> & E1).
  rewrite try_catch_bind.
  destruct (calculateTargetFeatures_run random (audioFeatures profile)
              (confidence moodAnalysis) w1) as (targets & -> & _).
  rewrite try_catch_bind.
  match goal with
  | |- context [getRecommendations api accessToken ?g targets 30 ?w2] =>
      destruct (getRecommendations_outcome accessToken g targets 30 w2)
        as (params & outcome & w3 & -> & E3 & Ho)
  end.
  rewrite Hrec in Ho. subst outcome. rewrite try_catch_bind.
  cbn [filterAndSelectTracks List.length Nat.eqb].
  unfold filterAndSelectTracks. cbn [List.length Nat.eqb]. unfold throw at 1.
  eexists. exists params, (console w3).
  split; [reflexivity|]. split; [|reflexivity].
  cbn [requests]. rewrite E3. cbn [requests]. rewrite E1.
  rewrite <- !app_assoc. reflexivity.
Qed.

Lemma filterGenres_nothing_available (profile : MoodMusicProfile) :
  filterGenres profile [] = ["pop"%string].
Proof.
  unfold filterGenres. cbn [existsb].
  assert (E : filter (fun _ : string => false) (genres profile) = []).
  { induction (genres profile) as [|g l IH]; [reflexivity | exact IH]. }
  rewrite E. reflexivity.
Qed.

(** X7. For a known emotion, when the request for the available genres
    fails, [generatePlaylist] goes on: the next request asks for 30
    recommendations of the one genre [pop]. *)
Theorem generatePlaylist_genres_unavailable (moodAnalysis : MoodAnalysis)
    (profile : MoodMusicProfile) (accessToken userId : string) (w : World) :
  moodProfiles_get (primaryEmotion moodAnalysis) = Profile profile ->
  available_genre_seeds api accessToken = None ->
  exists params sent,
    requests
      (snd (generatePlaylist random api today generatePlaylistDescription
              moodAnalysis accessToken userId w)) =
    (requests w ++
     GetAvailableGenreSeeds accessToken ::
     GetRecommendations accessToken params :: sent)%list /\
    seed_genres params = "pop"%string /\
    limit params = 30%Z.
Proof.
  intros Hp Hnone.
  destruct (generatePlaylist_seed_genres random api today
              generatePlaylistDescription moodAnalysis profile accessToken
              userId w Hp) as (params & sent & E & Eseed & Elimit).
  rewrite Hnone in Eseed. rewrite filterGenres_nothing_available in Eseed.
  exists params, sent. repeat split; assumption.
Qed.
End Pipeline.


Lemma generatePlaylist_no_rollback_witness :
  exists w',
    generatePlaylist (fun _ => 0.5)
      (webApi (Some ["pop"]%string) twoTracks None)
      "1/11/2026" (fun _ => "description"%string) happyMood "token" "user"
      (mkWorld 0 [] []) = (Throw (Error "Failed to generate playlist"), w')
    /\ List.length (requests w') = 5%nat.
Proof.
  assert (Hrandom : forall n : nat, 0 <= (fun _ : nat => 0.5) n < 1).
  { intros n. split; [intros C; discriminate C | reflexivity]. }
  pose proof (generatePlaylist_no_rollback (fun _ => 0.5)
                (webApi (Some ["pop"]%string) twoTracks None)
                "1/11/2026" (fun _ => "description"%string) Hrandom
                happyMood profile_happy "token" "user" (mkWorld 0 [] [])
                twoTracks (map (fun _ => Some onTarget) twoTracks)
                createdPlaylist) as H.
  specialize (H eq_refl (fun _ => eq_refl)).
  specialize (H ltac:(discriminate) eq_refl).
  specialize (H (fun _ _ => eq_refl) (fun _ => eq_refl)).
  destruct H as (w' & params & playlistName & uris & E & Hreq).
  exists w'. split; [exact E|]. rewrite Hreq. reflexivity.
Defined.

Lemma generatePlaylist_no_recommendations_witness :
  exists w',
    generatePlaylist (fun _ => 0.5) (webApi (Some ["pop"]%string) [] None)
      "1/11/2026" (fun _ => "description"%string) happyMood "token" "user"
      (mkWorld 0 [] []) = (Throw (Error "Failed to generate playlist"), w')
    /\ List.length (requests w') = 2%nat.
Proof.
  pose proof (generatePlaylist_no_recommendations (fun _ => 0.5)
                (webApi (Some ["pop"]%string) [] None)
                "1/11/2026" (fun _ => "description"%string)
                happyMood profile_happy "token" "user" (mkWorld 0 [] [])
                eq_refl (fun _ => eq_refl)) as H.
  destruct H as (w' & params & lines & E & Hreq & _).
  exists w'. split; [exact E|]. rewrite Hreq. reflexivity.
Defined.

Lemma generatePlaylist_genres_unavailable_witness :
  exists params sent,
    requests
      (snd (generatePlaylist (fun _ => 0.5) (webApi None twoTracks (Some tt))
              "1/11/2026" (fun _ => "description"%string) happyMood "token"
              "user" (mkWorld 0 [] []))) =
    GetAvailableGenreSeeds "token" ::
    GetRecommendations "token" params :: sent /\
    seed_genres params = "pop"%string /\
    limit params = 30%Z.
Proof.
  apply (generatePlaylist_genres_unavailable (fun _ => 0.5)
           (webApi None twoTracks (Some tt)) "1/11/2026"
           (fun _ => "description"%string) happyMood profile_happy "token"
           "user" (mkWorld 0 [] []) eq_refl eq_refl).
Defined.

(** ** The keyword search *)

Lemma searchStep_run (api : WebApi) (accessToken query : string)
    (allTracks : list SpotifyTrack) (w : World) :
  exists w',
    try_catch
      (bind (searchTracks api accessToken (searchQuery query) 10)
         (fun tracks => ret (allTracks ++ tracks)%list))
      (fun e =>
         bind (console_error ("Search failed for query: " ++ query) e)
           (fun _ => ret allTracks)) w =
    (Ok (allTracks ++ found api accessToken query)%list, w') /\
    requests w' =
    (requests w ++ [GetSearch accessToken (searchQuery query) 10])%list.
Proof.
  unfold try_catch, bind, searchTracks, try_catch, axios, found,
    console_error, console_log, throw, ret.
  destruct (search api accessToken (searchQuery query) 10) as [tracks|];
    eexists; (split; [try rewrite app_nil_r; reflexivity | reflexivity]).
Qed.

Lemma searchLoop_run (api : WebApi) (accessToken : string)
    (queries : list string) (allTracks : list SpotifyTrack) (w : World) :
  exists w',
    searchLoop api accessToken queries allTracks w =
    (Ok (allTracks ++
         List.concat (map (found api accessToken) queries))%list, w')
    /\
    requests w' =
    (requests w ++
     map (fun term => GetSearch accessToken (searchQuery term) 10)
       queries)%list.
Proof.
  revert allTracks w.
  induction queries as [|query queries IH]; intros allTracks w.
  - exists w. cbn. rewrite !app_nil_r. split; reflexivity.
  - cbn [searchLoop map List.concat]. unfold bind at 1.
    destruct (searchStep_run api accessToken query allTracks w)
      as (w1 & E1 & Hr1).
    unfold searchQuery in E1 at 1. rewrite E1.
    destruct (IH (allTracks ++ found api accessToken query)%list w1)
      as (w' & E & Hr).
    exists w'. rewrite E. split.
    + rewrite <- app_assoc. reflexivity.
    + rewrite Hr, Hr1. rewrite <- app_assoc. reflexivity.
Qed.

Lemma findIndex_app {A : Type} (p : A -> bool) (pre l : list A) :
  findIndex p (pre ++ l) =
  if existsb p pre then findIndex p pre
  else (List.length pre + findIndex p l)%nat.
Proof.
  induction pre as [|x pre IH]; cbn [app findIndex existsb List.length];
    [reflexivity|].
  destruct (p x); cbn [orb]; [reflexivity|].
  rewrite IH. destruct (existsb p pre); reflexivity.
Qed.

Lemma findIndex_lt {A : Type} (p : A -> bool) (l : list A) :
  existsb p l = true -> (findIndex p l < List.length l)%nat.
Proof.
  induction l as [|x l IH]; cbn [findIndex existsb List.length];
    [discriminate|].
  destruct (p x); cbn [orb]; [lia|]. intros H. apply IH in H. lia.
Qed.

Lemma existsb_id_map (track_ : SpotifyTrack) (l : list SpotifyTrack) :
  existsb (fun t => String.eqb (id t) (id track_)) l =
  existsb (String.eqb (id track_)) (map id l).
Proof.
  induction l as [|x l IH]; cbn [existsb map]; [reflexivity|].
  rewrite IH, (String.eqb_sym (id x)). reflexivity.
Qed.

Lemma firstOfEachId_ext (seen seen' : list string) (l : list SpotifyTrack) :
  (forall key,
      existsb (String.eqb key) seen = existsb (String.eqb key) seen') ->
  firstOfEachId seen l = firstOfEachId seen' l.
Proof.
  revert seen seen'. induction l as [|track_ l IH]; intros seen seen' H;
    cbn [firstOfEachId]; [reflexivity|].
  rewrite <- H. destruct (existsb (String.eqb (id track_)) seen).
  - apply IH. assumption.
  - f_equal. apply IH. intros key. cbn [existsb]. rewrite H. reflexivity.
Qed.

(** The filter of [searchByMoodKeywords], on the part [l] of the array
    that follows [pre]. *)
Lemma uniqueTracks_firstOfEachId (pre l : list SpotifyTrack) :
  map snd
    (filter
       (fun '(index, track_) =>
          Nat.eqb index
            (findIndex (fun t => String.eqb (id t) (id track_)) (pre ++ l)))
       (combine (seq (List.length pre) (List.length l)) l)) =
  firstOfEachId (map id pre) l.
Proof.
  revert pre. induction l as [|track_ l IH]; intros pre; [reflexivity|].
  cbn [List.length seq combine filter firstOfEachId].
  specialize (IH (pre ++ [track_])%list).
  rewrite <- app_assoc, length_app, map_app in IH.
  cbn [app List.length map] in IH. rewrite Nat.add_1_r in IH.
  rewrite findIndex_app, existsb_id_map.
  destruct (existsb (String.eqb (id track_)) (map id pre)) eqn:Eseen.
  - assert (Hlt : (findIndex (fun t => String.eqb (id t) (id track_)) pre
                   < List.length pre)%nat).
    { apply findIndex_lt. rewrite existsb_id_map. assumption. }
    replace (Nat.eqb (List.length pre) _) with false
      by (symmetry; apply Nat.eqb_neq; lia).
    rewrite IH. apply firstOfEachId_ext. intros key.
    rewrite existsb_app. cbn [existsb]. rewrite orb_false_r.
    destruct (String.eqb key (id track_)) eqn:E; [|apply orb_false_r].
    apply String.eqb_eq in E. subst key. rewrite Eseen. reflexivity.
  - cbn [findIndex]. rewrite String.eqb_refl, Nat.add_0_r, Nat.eqb_refl.
    cbn [map snd]. rewrite IH. f_equal. apply firstOfEachId_ext. intros key.
    rewrite existsb_app. cbn [existsb]. rewrite orb_false_r.
    apply orb_comm.
Qed.

Lemma firstOfEachId_subsequence (seen : list string)
    (l : list SpotifyTrack) :
  subsequence (firstOfEachId seen l) l.
Proof.
  revert seen. induction l as [|track_ l IH]; intros seen;
    cbn [firstOfEachId]; [constructor|].
  destruct (existsb (String.eqb (id track_)) seen); constructor; apply IH.
Qed.

Lemma firstOfEachId_not_seen (seen : list string) (l : list SpotifyTrack)
    (track_ : SpotifyTrack) :
  In track_ (firstOfEachId seen l) -> ~ In (id track_) seen.
Proof.
  revert seen. induction l as [|x l IH]; intros seen; cbn [firstOfEachId];
    [contradiction|].
  destruct (existsb (String.eqb (id x)) seen) eqn:E; [apply IH|].
  intros [<- | Hin].
  - intros C. apply includes_In in C. congruence.
  - intros C. apply (IH _ Hin). right. assumption.
Qed.

Lemma firstOfEachId_NoDup (seen : list string) (l : list SpotifyTrack) :
  NoDup (map id (firstOfEachId seen l)).
Proof.
  revert seen. induction l as [|x l IH]; intros seen; cbn [firstOfEachId];
    [constructor|].
  destruct (existsb (String.eqb (id x)) seen); [apply IH|].
  cbn [map]. constructor; [|apply IH].
  intros C. apply in_map_iff in C. destruct C as (y & Ey & Hy).
  apply firstOfEachId_not_seen in Hy. apply Hy. left. symmetry. assumption.
Qed.

(** No id is lost: every track of [l] has its id in [seen] or on a track
    kept. *)
Lemma firstOfEachId_covers (seen : list string) (l : list SpotifyTrack)
    (track_ : SpotifyTrack) :
  In track_ l ->
  In (id track_) seen \/ In (id track_) (map id (firstOfEachId seen l)).
Proof.
  revert seen. induction l as [|x l IH]; intros seen; [contradiction|].
  cbn [firstOfEachId].
  destruct (existsb (String.eqb (id x)) seen) eqn:E.
  - intros [<- | Hin]; [|apply IH; assumption].
    left. apply includes_In. assumption.
  - cbn [map]. intros [<- | Hin]; [right; left; reflexivity|].
    destruct (IH (id x :: seen) Hin) as [[<- | H] | H].
    + right. left. reflexivity.
    + left. assumption.
    + right. right. assumption.
Qed.

Lemma subsequence_In {A : Type} (l l' : list A) (x : A) :
  subsequence l l' -> In x l -> In x l'.
Proof.
  intros H. induction H as [|y l l' H IH|y l l' H IH]; cbn; [tauto| |];
    intuition.
Qed.

Lemma subsequence_trans {A : Type} (l1 l2 l3 : list A) :
  subsequence l1 l2 -> subsequence l2 l3 -> subsequence l1 l3.
Proof.
  intros H12 H23. revert l1 H12.
  induction H23 as [|x l2 l3 H IH|x l2 l3 H IH]; intros l1 H12.
  - assumption.
  - constructor. apply IH. assumption.
  - inversion H12; subst; constructor; apply IH; assumption.
Qed.

Lemma subsequence_nil_l {A : Type} (l : list A) : subsequence [] l.
Proof. induction l; constructor; assumption. Qed.

Lemma firstn_subsequence {A : Type} (n : nat) (l : list A) :
  subsequence (firstn n l) l.
Proof.
  revert n. induction l as [|x l IH]; intros [|n]; cbn [firstn].
  - constructor.
  - constructor.
  - apply subsequence_nil_l.
  - apply subsequence_keep, IH.
Qed.

Lemma subsequence_map {A B : Type} (f : A -> B) (l l' : list A) :
  subsequence l l' -> subsequence (map f l) (map f l').
Proof. intros H. induction H; cbn [map]; constructor; assumption. Qed.

Lemma subsequence_NoDup {A : Type} (l l' : list A) :
  subsequence l l' -> NoDup l' -> NoDup l.
Proof.
  intros H. induction H as [|x l l' H IH|x l l' H IH]; intros Hnd.
  - assumption.
  - apply IH. inversion Hnd; assumption.
  - inversion Hnd as [|? ? Hx Hl]; subst. constructor; [|apply IH; assumption].
    intros C. apply Hx. apply (subsequence_In l l'); assumption.
Qed.

Lemma firstOfEachId_first (seen : list string) (l : list SpotifyTrack)
    (track_ : SpotifyTrack) :
  In track_ (firstOfEachId seen l) ->
  exists before after,
    l = (before ++ track_ :: after)%list /\
    ~ In (id track_) (map id before).
Proof.
  revert seen. induction l as [|x l IH]; intros seen; cbn [firstOfEachId];
    [contradiction|].
  destruct (existsb (String.eqb (id x)) seen) eqn:E.
  - intros Hin. pose proof (firstOfEachId_not_seen _ _ _ Hin) as Hnot.
    destruct (IH seen Hin) as (before & after & -> & Hb).
    exists (x :: before), after. split; [reflexivity|].
    cbn [map In]. intros [C | C]; [|contradiction].
    apply Hnot. rewrite <- C. apply includes_In. assumption.
  - intros [<- | Hin].
    + exists [], l. split; [reflexivity | intros []].
    + pose proof (firstOfEachId_not_seen _ _ _ Hin) as Hnot.
      destruct (IH _ Hin) as (before & after & -> & Hb).
      exists (x :: before), after. split; [reflexivity|].
      cbn [map In]. intros [C | C]; [|contradiction].
      apply Hnot. left. assumption.
Qed.

Lemma moodProfiles_get_Profile (key : string) (profile : MoodMusicProfile) :
  moodProfiles_get key = Profile profile ->
  assoc key moodProfiles = Some profile.
Proof.
  unfold moodProfiles_get. destruct (assoc key moodProfiles).
  - intros [= ->]. reflexivity.
  - destruct (existsb _ _); discriminate.
Qed.

(** Every profile has five search terms or more. *)
Lemma searchTerms_five (emotion : string) (profile : MoodMusicProfile) :
  assoc emotion moodProfiles = Some profile ->
  List.length
    (firstn 5 (keywords profile ++ genres profile ++ [emotion])) = 5%nat.
Proof.
  intros H. apply assoc_In in H. unfold moodProfiles in H. cbn [In] in H.
  repeat (destruct H as [[= _ <-] | H]; [reflexivity|]).
  contradiction.
Qed.

Lemma searchByMoodKeywords_run (api : WebApi) (moodAnalysis : MoodAnalysis)
    (profile : MoodMusicProfile) (accessToken : string) (w : World) :
  moodProfiles_get (primaryEmotion moodAnalysis) = Profile profile ->
  let terms :=
    firstn 5
      (keywords profile ++ genres profile ++ [primaryEmotion moodAnalysis]) in
  let allTracks := List.concat (map (found api accessToken) terms) in
  exists w',
    searchByMoodKeywords api moodAnalysis accessToken w =
    (Ok (firstn 30 (firstOfEachId [] allTracks)), w') /\
    requests w' =
    (requests w ++
     map (fun term => GetSearch accessToken (searchQuery term) 10)
       terms)%list.
Proof.
  intros Hp terms allTracks. unfold searchByMoodKeywords. rewrite Hp.
  unfold bind. fold terms.
  destruct (searchLoop_run api accessToken terms [] w) as (w' & -> & Hr).
  cbn [app]. fold allTracks. exists w'. split; [|exact Hr].
  unfold ret. do 3 f_equal.
  apply (uniqueTracks_firstOfEachId [] allTracks).
Qed.

(** X8. For a known emotion [searchByMoodKeywords] does not throw, even
    when searches fail: it sends five searches, one for each of the first
    five terms among the keywords, the genres and the emotion, each for 10
    tracks. *)
Theorem searchByMoodKeywords_requests (api : WebApi)
    (moodAnalysis : MoodAnalysis) (profile : MoodMusicProfile)
    (accessToken : string) (w : World) :
  moodProfiles_get (primaryEmotion moodAnalysis) = Profile profile ->
  let terms :=
    firstn 5
      (keywords profile ++ genres profile ++ [primaryEmotion moodAnalysis]) in
  List.length terms = 5%nat /\
  exists tracks w',
    searchByMoodKeywords api moodAnalysis accessToken w = (Ok tracks, w') /\
    requests w' =
    (requests w ++
     map (fun term =>
            GetSearch accessToken ("genre:" ++ term ++ " OR " ++ term) 10)
       terms)%list.
Proof.
  intros Hp terms.
  split; [apply searchTerms_five, moodProfiles_get_Profile; assumption|].
  destruct (searchByMoodKeywords_run api moodAnalysis profile accessToken w
              Hp) as (w' & E & Hr).
  eexists. exists w'. split; [exact E | exact Hr].
Qed.

Lemma searchByMoodKeywords_requests_witness :
  exists tracks w',
    searchByMoodKeywords (webApi None twoTracks None) happyMood "token"
      (mkWorld 0 [] []) = (Ok tracks, w') /\
    requests w' =
    map (fun term =>
           GetSearch "token" ("genre:" ++ term ++ " OR " ++ term) 10)
      ["upbeat"; "positive"; "celebration"; "sunshine"; "party"]%string.
Proof.
  apply (searchByMoodKeywords_requests (webApi None twoTracks None) happyMood
           profile_happy "token" (mkWorld 0 [] [])).
  reflexivity.
Defined.

(** X9. For a known emotion the tracks [searchByMoodKeywords] returns are
    found tracks, in the order found, at most 30 and no two of the same id;
    each is the first track found with its id; and when fewer than 30 are
    returned, every id found is among them. *)
Theorem searchByMoodKeywords_unique (api : WebApi)
    (moodAnalysis : MoodAnalysis) (profile : MoodMusicProfile)
    (accessToken : string) (w : World) :
  moodProfiles_get (primaryEmotion moodAnalysis) = Profile profile ->
  let terms :=
    firstn 5
      (keywords profile ++ genres profile ++ [primaryEmotion moodAnalysis]) in
  let allTracks := List.concat (map (found api accessToken) terms) in
  exists tracks w',
    searchByMoodKeywords api moodAnalysis accessToken w = (Ok tracks, w') /\
    subsequence tracks allTracks /\
    (List.length tracks <= 30)%nat /\
    NoDup (map id tracks) /\
    (forall track_,
        In track_ tracks ->
        exists before after,
          allTracks = (before ++ track_ :: after)%list /\
          ~ In (id track_) (map id before)) /\
    ((List.length tracks < 30)%nat ->
     forall track_, In track_ allTracks -> In (id track_) (map id tracks)).
Proof.
  intros Hp terms allTracks.
  destruct (searchByMoodKeywords_run api moodAnalysis profile accessToken w
              Hp) as (w' & E & _).
  fold terms in E. fold allTracks in E.
  set (unique := firstOfEachId [] allTracks) in *.
  exists (firstn 30 unique), w'. split; [exact E|].
  assert (Hsub : subsequence (firstn 30 unique) unique)
    by apply firstn_subsequence.
  split; [|split; [|split; [|split]]].
  - apply (subsequence_trans _ unique); [assumption|].
    apply firstOfEachId_subsequence.
  - apply firstn_le_length.
  - apply (subsequence_NoDup _ (map id unique)).
    + apply subsequence_map. assumption.
    + apply firstOfEachId_NoDup.
  - intros track_ Hin. apply (firstOfEachId_first []).
    apply (subsequence_In _ _ _ Hsub). assumption.
  - intros Hlen track_ Hin.
    assert (Hall : firstn 30 unique = unique).
    { apply firstn_all2. rewrite length_firstn in Hlen. lia. }
    rewrite Hall.
    destruct (firstOfEachId_covers [] allTracks track_ Hin) as [[]|H].
    exact H.
Qed.

Lemma searchByMoodKeywords_unique_witness :
  exists tracks w',
    searchByMoodKeywords (webApi None twoTracks None) happyMood "token"
      (mkWorld 0 [] []) = (Ok tracks, w') /\
    tracks = twoTracks /\
    NoDup (map id tracks).
Proof.
  destruct (searchByMoodKeywords_unique (webApi None twoTracks None)
              happyMood profile_happy "token" (mkWorld 0 [] []) eq_refl)
    as (tracks & w' & E & _ & _ & Hnd & _).
  exists tracks, w'. split; [exact E|]. split; [|exact Hnd].
  vm_compute in E. injection E as <- _. reflexivity.
Defined.

(** ** The shuffle and the name of the playlist *)

Lemma shuffleLoop_run (random : nat -> Q) {A : Type} (i : nat)
    (l : list A) (w : World) :
  (forall n, 0 <= random n < 1) ->
  (i < List.length l)%nat ->
  exists l',
    shuffleLoop random i l w =
    (Ok l',
     {| random_pos := (i + random_pos w)%nat;
        requests := requests w;
        console := console w |}) /\
    Permutation l' l.
Proof.
  intros Hrandom. revert l w. induction i as [|i IH]; intros l w Hi.
  - exists l. destruct w. split; reflexivity.
  - cbn [shuffleLoop]. unfold bind, Math_random.
    set (j := Z.to_nat _).
    assert (Hj : (j <= S i)%nat) by (apply shuffle_index_le, Hrandom).
    destruct (swap_Permutation (S i) j l) as (Hp & _); [lia..|].
    match goal with
    | |- context [shuffleLoop random i ?l1 ?w1] =>
        destruct (IH l1 w1) as (l' & E & Hp')
    end.
    { rewrite (Permutation_length Hp). lia. }
    exists l'. rewrite E. cbn [random_pos requests console].
    rewrite Nat.add_succ_r. split; [reflexivity|].
    rewrite Hp'. exact Hp.
Qed.

(** X10. For values of the random source in [0, 1), [shuffleArray]
    returns a permutation of its argument, after [length - 1] draws (none
    for the empty array); it sends no request and writes nothing. An array
    of at most one element comes back as it is. *)
Theorem shuffleArray_spec (random : nat -> Q) {A : Type} (array : list A)
    (w : World) :
  (forall n, 0 <= random n < 1) ->
  exists shuffled,
    shuffleArray random array w =
    (Ok shuffled,
     {| random_pos := (List.length array - 1 + random_pos w)%nat;
        requests := requests w;
        console := console w |}) /\
    Permutation shuffled array /\
    List.length shuffled = List.length array /\
    ((List.length array <= 1)%nat -> shuffled = array).
Proof.
  intros Hrandom. unfold shuffleArray. destruct array as [|x array].
  - exists []. destruct w. repeat split; reflexivity.
  - destruct (shuffleLoop_run random (List.length (x :: array) - 1)
                (x :: array) w Hrandom) as (shuffled & E & Hp);
      [cbn; lia|].
    exists shuffled. split; [exact E|]. split; [exact Hp|].
    split; [apply Permutation_length; assumption|].
    intros Hlen. destruct array as [|y array]; [|cbn in Hlen; lia].
    apply Permutation_length_1_inv. symmetry. assumption.
Qed.

Lemma shuffleArray_spec_witness :
  exists shuffled,
    shuffleArray (fun n => 1 # Pos.of_nat (n + 2)) [1; 2; 3; 4]%nat
      (mkWorld 0 [] []) = (Ok shuffled, mkWorld 3 [] []) /\
    Permutation shuffled [1; 2; 3; 4]%nat.
Proof.
  destruct (shuffleArray_spec (fun n => 1 # Pos.of_nat (n + 2))
              [1; 2; 3; 4]%nat (mkWorld 0 [] []))
    as (shuffled & E & Hp & _).
  - intros n. unfold Qle, Qlt. cbn. lia.
  - exists shuffled. split; [exact E | exact Hp].
Defined.

(** Every emotion of [moodNames] has five names. *)
Lemma moodNames_five (emotion : string) (names : list string) :
  assoc emotion moodNames = Some names -> List.length names = 5%nat.
Proof.
  intros H. apply assoc_In in H. unfold moodNames in H. cbn [In] in H.
  repeat (destruct H as [[= _ <-] | H]; [reflexivity|]).
  contradiction.
Qed.

(** X11. For values of the random source in [0, 1), after one draw
    [generatePlaylistName] returns a name followed by [" - "] and the date:
    one of the five names of the emotion when [moodNames] has it, and
    [Mixed Mood Music] for an emotion that neither [moodNames] nor
    [Object.prototype] has. *)
Theorem generatePlaylistName_spec (random : nat -> Q) (today : string)
    (moodAnalysis : MoodAnalysis) (w : World) :
  (forall n, 0 <= random n < 1) ->
  exists randomName,
    generatePlaylistName random today moodAnalysis w =
    (Ok (randomName ++ " - " ++ today)%string,
     {| random_pos := S (random_pos w);
        requests := requests w;
        console := console w |}) /\
    (forall names,
        assoc (primaryEmotion moodAnalysis) moodNames = Some names ->
        In randomName names) /\
    (assoc (primaryEmotion moodAnalysis) moodNames = None ->
     ~ In (primaryEmotion moodAnalysis) Object_prototype ->
     randomName = "Mixed Mood Music"%string).
Proof.
  intros Hrandom. unfold generatePlaylistName, bind, Math_random, ret.
  eexists. split; [reflexivity|]. split.
  - intros names Hnames. rewrite Hnames.
    pose proof (moodNames_five _ _ Hnames) as Hlen.
    apply nth_In. rewrite Hlen.
    pose proof (shuffle_index_le (random (random_pos w)) 4
                  (Hrandom _)) as Hle.
    cbn [Nat.add] in Hle. lia.
  - intros Hnone Hproto. rewrite Hnone.
    destruct (existsb _ Object_prototype) eqn:E.
    + apply includes_In in E. contradiction.
    + cbn [List.length].
      pose proof (shuffle_index_le (random (random_pos w)) 0
                    (Hrandom _)) as Hle.
      cbn [Nat.add] in Hle.
      replace (Z.to_nat _) with 0%nat by lia. reflexivity.
Qed.

Lemma generatePlaylistName_spec_witness :
  exists randomName w',
    generatePlaylistName (fun _ => 0.5) "1/11/2026" happyMood
      (mkWorld 0 [] []) =
    (Ok (randomName ++ " - 1/11/2026")%string, w') /\
    In randomName
      ["Sunshine Vibes"; "Feel Good Hits"; "Happy Hour";
       "Positivity Playlist"; "Joyful Jams"]%string.
Proof.
  destruct (generatePlaylistName_spec (fun _ => 0.5) "1/11/2026" happyMood
              (mkWorld 0 [] [])) as (randomName & E & Hin & _).
  - intros n. split; [intros C; discriminate C | reflexivity].
  - exists randomName. eexists. split; [exact E|].
    apply Hin. reflexivity.
Defined.

(** ** Random strings *)

Lemma charAt_possible (i : nat) :
  (i < String.length possible)%nat ->
  exists c,
    charAt possible i = String c EmptyString /\
    In c (list_ascii_of_string possible).
Proof.
  intros Hi. unfold charAt.
  do 62 (destruct i as [|i];
         [eexists; split; [reflexivity|]; cbn; tauto|]).
  cbn in Hi. lia.
Qed.

Lemma length_append (s1 s2 : string) :
  String.length (s1 ++ s2) = (String.length s1 + String.length s2)%nat.
Proof. induction s1 as [|c s1 IH]; cbn; [|rewrite IH]; reflexivity. Qed.

Lemma list_ascii_of_string_append (s1 s2 : string) :
  list_ascii_of_string (s1 ++ s2) =
  (list_ascii_of_string s1 ++ list_ascii_of_string s2)%list.
Proof. induction s1 as [|c s1 IH]; cbn; [|rewrite IH]; reflexivity. Qed.

Lemma generateRandomStringLoop_run (random : nat -> Q) (n : nat)
    (text : string) (w : World) :
  (forall k, 0 <= random k < 1) ->
  exists more,
    generateRandomStringLoop random n text w =
    (Ok (text ++ more)%string,
     {| random_pos := (n + random_pos w)%nat;
        requests := requests w;
        console := console w |}) /\
    String.length more = n /\
    Forall (fun c => In c (list_ascii_of_string possible))
      (list_ascii_of_string more).
Proof.
  intros Hrandom. revert text w. induction n as [|n IH]; intros text w.
  - exists EmptyString. destruct w. cbn.
    replace (text ++ "")%string with text.
    + repeat split. constructor.
    + induction text as [|c text IHt]; cbn; [|rewrite <- IHt]; reflexivity.
  - cbn [generateRandomStringLoop]. unfold bind, Math_random.
    set (i := Z.to_nat _).
    assert (Hi : (i < String.length possible)%nat).
    { pose proof (shuffle_index_le (random (random_pos w)) 61
                    (Hrandom _)) as Hle.
      unfold i. cbn [Nat.add] in Hle.
      change (String.length possible) with 62%nat. lia. }
    destruct (charAt_possible i Hi) as (c & Ec & Hc). rewrite Ec.
    match goal with
    | |- context [generateRandomStringLoop random n ?t ?w1] =>
        destruct (IH t w1) as (more & E & Hlen & Hall)
    end.
    exists (String c more). rewrite E. cbn [random_pos requests console].
    split; [|split].
    + f_equal; [|rewrite Nat.add_succ_r; reflexivity].
      f_equal. clear. induction text as [|d text IHt]; cbn;
        [|rewrite IHt]; reflexivity.
    + cbn. rewrite Hlen. reflexivity.
    + cbn. constructor; assumption.
Qed.

(** X12. For values of the random source in [0, 1),
    [generateRandomString(length)] returns a string of [length]
    characters, each a letter or a digit of [possible], after [length]
    draws. *)
Theorem generateRandomString_spec (random : nat -> Q) (length_ : nat)
    (w : World) :
  (forall k, 0 <= random k < 1) ->
  exists text,
    generateRandomString random length_ w =
    (Ok text,
     {| random_pos := (length_ + random_pos w)%nat;
        requests := requests w;
        console := console w |}) /\
    String.length text = length_ /\
    Forall (fun c => In c (list_ascii_of_string possible))
      (list_ascii_of_string text).
Proof.
  intros Hrandom. unfold generateRandomString.
  destruct (generateRandomStringLoop_run random length_ "" w Hrandom)
    as (more & E & Hlen & Hall).
  exists more. split; [exact E|]. split; assumption.
Qed.

Lemma generateRandomString_spec_witness :
  exists text,
    generateRandomString (fun n => 1 # Pos.of_nat (n + 2)) 16
      (mkWorld 0 [] []) = (Ok text, mkWorld 16 [] []) /\
    String.length text = 16%nat.
Proof.
  destruct (generateRandomString_spec (fun n => 1 # Pos.of_nat (n + 2)) 16
              (mkWorld 0 [] [])) as (text & E & Hlen & _).
  - intros n. unfold Qle, Qlt. cbn. lia.
  - exists text. split; [exact E | exact Hlen].
Defined.

(** ** The validation of a mood analysis *)

Lemma outside_unit_inUnit (value : option json) :
  outside_unit value = false <->
  exists n, value = Some (JNumber n) /\ inUnit n.
Proof.
  split.
  - destruct value as [[| |n| | |]|]; try discriminate.
    intros H. exists n. split; [reflexivity|].
    cbn [outside_unit] in H. apply orb_false_iff in H. destruct H as [H0 H1].
    destruct n as [q| | |]; cbn in *; try discriminate; [|exact I].
    apply negb_false_iff in H0, H1. apply Qle_bool_iff in H0, H1.
    split; assumption.
  - intros (n & -> & Hn). cbn [outside_unit].
    destruct n as [q| | |]; cbn in *; try contradiction; [|reflexivity].
    destruct Hn as [H0 H1]. apply Qle_bool_iff in H0, H1.
    rewrite H0, H1. reflexivity.
Qed.

Lemma bind_Ok {A B : Type} (c : M A) (k : A -> M B) (w w' : World) (a : A) :
  c w = (Ok a, w') -> bind c k w = k a w'.
Proof. intros H. unfold bind. rewrite H. reflexivity. Qed.

Lemma bind_Throw {A B : Type} (c : M A) (k : A -> M B) (w w' : World)
    (e : error) :
  c w = (Throw e, w') -> bind c k w = (Throw e, w').
Proof. intros H. unfold bind. rewrite H. reflexivity. Qed.

Lemma checkEmotions_run (properties : list (string * json))
    (data_emotions : json) (emotions_ : list string) (w : World) :
  assoc "emotions"%string properties = Some data_emotions ->
  data_emotions <> JNull ->
  (exists outcome,
      checkEmotions (JObject properties) emotions_ w = (outcome, w)) /\
  (checkEmotions (JObject properties) emotions_ w = (Ok tt, w) <->
   forall emotion,
     In emotion emotions_ ->
     exists scores n,
       data_emotions = JObject scores /\
       assoc emotion scores = Some (JNumber n) /\ inUnit n).
Proof.
  intros Hem Hnull. induction emotions_ as [|emotion rest IH].
  - split; [eexists; reflexivity|]. split; [intros _ ? []|reflexivity].
  - cbn [checkEmotions].
    rewrite (bind_Ok _ _ w w (Some data_emotions))
      by (cbn [read]; rewrite Hem; reflexivity).
    assert (Hread : exists value,
               read (Some data_emotions) emotion w = (Ok value, w) /\
               (outside_unit value = false <->
                exists scores n,
                  data_emotions = JObject scores /\
                  assoc emotion scores = Some (JNumber n) /\ inUnit n)).
    { destruct data_emotions as [| | | | |scores]; try contradiction;
        try (exists None; split; [reflexivity|];
             split; [intros C; discriminate C
                    | intros (? & ? & C & _); discriminate C]).
      exists (assoc emotion scores). split; [reflexivity|].
      rewrite outside_unit_inUnit. split.
      - intros (n & E & Hn). exists scores, n. repeat split; assumption.
      - intros (scores' & n & [= <-] & E & Hn). exists n. split; assumption. }
    destruct Hread as (value & Hread & Hvalue).
    rewrite (bind_Ok _ _ w w value Hread).
    destruct (outside_unit value) eqn:Eout.
    + split; [eexists; reflexivity|]. split; [unfold throw; cbv beta iota; intros C; discriminate C|].
      intros Hall. exfalso.
      assert (C : true = false) by (apply Hvalue, Hall; left; reflexivity).
      discriminate C.
    + destruct IH as [Hrun Hiff]. split; [exact Hrun|].
      rewrite Hiff. split.
      * intros Hall e [<- | Hin]; [apply Hvalue; reflexivity | auto].
      * intros Hall e Hin. apply Hall. right. assumption.
Qed.

Lemma includes_json_In (keys : list string) (value : option json) :
  includes_json keys value = true <->
  exists s, value = Some (JString s) /\ In s keys.
Proof.
  split.
  - destruct value as [[| | |s| |]|]; try discriminate.
    intros H. exists s. split; [reflexivity|]. apply includes_In. assumption.
  - intros (s & -> & Hin). apply includes_In. assumption.
Qed.

Lemma requiredEmotions_truthy (s : string) :
  In s requiredEmotions -> truthy_json (Some (JString s)) = true.
Proof.
  intros H. cbn [In requiredEmotions] in H.
  repeat (destruct H as [<- | H]; [reflexivity|]). contradiction.
Qed.

(** [validateMoodAnalysis] leaves the world as it is, and returns exactly
    on the data of the shape [validMoodData]. *)
Lemma validateMoodAnalysis_run (data : json) (w : World) :
  (exists outcome, validateMoodAnalysis data w = (outcome, w)) /\
  (validateMoodAnalysis data w = (Ok tt, w) <-> validMoodData data).
Proof.
  unfold validateMoodAnalysis.
  destruct data as [| | | | |properties];
    try (split;
         [eexists; reflexivity
         | split; [unfold throw; cbv beta iota; intros C; discriminate C
                  | intros (? & ? & ? & ? & C & _); discriminate C]]).
  rewrite (bind_Ok _ _ w w (assoc "primaryEmotion"%string properties))
    by reflexivity.
  destruct (negb (truthy_json (assoc "primaryEmotion"%string properties))
            || negb (includes_json requiredEmotions
                       (assoc "primaryEmotion"%string properties)))
    eqn:Eprimary.
  { split; [eexists; reflexivity|]. split; [unfold throw; cbv beta iota; intros C; discriminate C|].
    intros (props & pe & scores & c & [= <-] & Hpe & Hin & _).
    rewrite Hpe in Eprimary.
    rewrite (requiredEmotions_truthy pe Hin) in Eprimary.
    rewrite (proj2 (includes_json_In _ _)) in Eprimary; [discriminate|].
    exists pe. split; [reflexivity | assumption]. }
  apply orb_false_iff in Eprimary. destruct Eprimary as [_ Epe].
  apply negb_false_iff, includes_json_In in Epe.
  destruct Epe as (pe & Hpe & Hin).
  rewrite (bind_Ok _ _ w w (assoc "emotions"%string properties))
    by reflexivity.
  destruct (negb (truthy_json (assoc "emotions"%string properties))
            || negb (is_object (assoc "emotions"%string properties)))
    eqn:Eemotions.
  { split; [eexists; reflexivity|]. split; [unfold throw; cbv beta iota; intros C; discriminate C|].
    intros (props & pe' & scores & c & [= <-] & _ & _ & Hem & _).
    rewrite Hem in Eemotions. discriminate Eemotions. }
  apply orb_false_iff in Eemotions. destruct Eemotions as [Etruthy Eobject].
  apply negb_false_iff in Etruthy, Eobject.
  destruct (assoc "emotions"%string properties) as [data_emotions|] eqn:Hem;
    [|discriminate].
  assert (Hnull : data_emotions <> JNull) by (intros ->; discriminate).
  destruct (checkEmotions_run properties data_emotions requiredEmotions w
              Hem Hnull) as [[outcome Hrun] Hcheck].
  destruct outcome as [[]|e].
  2: { rewrite (bind_Throw _ _ w w e Hrun).
       split; [eexists; reflexivity|]. split; [intros C; discriminate C|].
       intros (props & pe' & scores & c & [= <-] & _ & _ & Hem' & Hall & _).
       rewrite Hem in Hem'. injection Hem' as ->.
       assert (C : (Throw e, w) = (@Ok unit tt, w)).
       { rewrite <- Hrun. apply Hcheck. intros emotion Hemo.
         destruct (Hall emotion Hemo) as (n & E & Hn).
         exists scores, n. repeat split; assumption. }
       discriminate C. }
  pose proof (proj1 Hcheck Hrun) as Hall.
  rewrite (bind_Ok _ _ w w tt Hrun).
  rewrite (bind_Ok _ _ w w (assoc "confidence"%string properties))
    by reflexivity.
  destruct (outside_unit (assoc "confidence"%string properties)) eqn:Econf.
  { split; [eexists; reflexivity|]. split; [unfold throw; cbv beta iota; intros C; discriminate C|].
    intros (props & pe' & scores & c & [= <-] & _ & _ & _ & _ & Hc & Hunit).
    assert (C : true = false).
    { rewrite <- Econf. apply outside_unit_inUnit. exists c.
      split; assumption. }
    discriminate C. }
  apply outside_unit_inUnit in Econf. destruct Econf as (c & Hc & Hunit).
  split; [eexists; reflexivity|]. split; [|reflexivity]. intros _.
  destruct (Hall "happy"%string) as (scores & _ & -> & _);
    [left; reflexivity|].
  exists properties, pe, scores, c. repeat split; try assumption.
  intros emotion Hemo. destruct (Hall emotion Hemo) as (scores' & n & E & H).
  injection E as <-. exists n. assumption.
Qed.

(** X13. [validateMoodAnalysis] accepts exactly the objects of the shape
    of a mood analysis: a [primaryEmotion] among the six emotions, an
    [emotions] object with a number for each of the six, and a
    [confidence] number, no number below 0 or above 1. On any other value
    it throws. It has no effect. *)
Theorem validateMoodAnalysis_spec (data : json) (w : World) :
  (validMoodData data -> validateMoodAnalysis data w = (Ok tt, w)) /\
  (~ validMoodData data ->
   exists e, validateMoodAnalysis data w = (Throw e, w)).
Proof.
  destruct (validateMoodAnalysis_run data w) as [[outcome Hrun] Hiff].
  split.
  - apply Hiff.
  - intros Hnot. destruct outcome as [[]|e].
    + exfalso. apply Hnot, Hiff. assumption.
    + exists e. assumption.
Qed.

(** ** The fallback analysis *)

Lemma Qgtb_true (x y : Q) : Qgtb x y = true <-> y < x.
Proof.
  unfold Qgtb. rewrite negb_true_iff. split.
  - intros H. apply Qnot_le_lt. intros C. apply Qle_bool_iff in C. congruence.
  - intros H. apply not_true_is_false. intros C. apply Qle_bool_iff in C.
    apply (Qlt_not_le _ _ H C).
Qed.

Lemma Qgtb_false (x y : Q) : Qgtb x y = false <-> x <= y.
Proof.
  unfold Qgtb. rewrite negb_false_iff. apply Qle_bool_iff.
Qed.

Lemma keywordScore_unit (lowerText : string) (words : list string) :
  words <> [] -> 0 <= keywordScore lowerText words <= 1.
Proof.
  intros Hwords. unfold keywordScore, countKeywords.
  assert (Hle : (List.length (filter (includes lowerText) words)
                 <= List.length words)%nat) by apply filter_length_le.
  assert (Hpos : (0 < List.length words)%nat)
    by (destruct words; [contradiction | cbn; lia]).
  set (c := List.length (filter _ _)) in *. set (n := List.length words) in *.
  assert (Hn : 0 < inject_Z (Z.of_nat n))
    by (change 0 with (inject_Z 0); rewrite <- Zlt_Qlt; lia).
  assert (Hc : 0 <= inject_Z (Z.of_nat c))
    by (change 0 with (inject_Z 0); rewrite <- Zle_Qle; lia).
  assert (Hcn : inject_Z (Z.of_nat c) <= inject_Z (Z.of_nat n))
    by (rewrite <- Zle_Qle; lia).
  split.
  - apply Qle_shift_div_l; [assumption | lra].
  - apply Qle_shift_div_r; [assumption | lra].
Qed.

Lemma keywordScore_none (lowerText : string) (words : list string) :
  (forall keyword, In keyword words -> includes lowerText keyword = false) ->
  keywordScore lowerText words == 0.
Proof.
  intros H. unfold keywordScore, countKeywords.
  replace (filter (includes lowerText) words) with (@nil string).
  - cbn. unfold Qdiv. ring.
  - symmetry. induction words as [|k words IH]; [reflexivity|].
    cbn [filter]. rewrite (H k) by (left; reflexivity).
    apply IH. intros k' Hk'. apply H. right. assumption.
Qed.

Lemma div_unit (x total : Q) :
  0 <= x -> x <= total -> 0 < total -> 0 <= x / total <= 1.
Proof.
  intros H0 H1 Ht. split.
  - apply Qle_shift_div_l; [assumption | lra].
  - apply Qle_shift_div_r; [assumption | lra].
Qed.

(** After the normalisation every score is between 0 and 1. *)
Lemma normalize_unit (scores : Emotions) :
  (forall entry, In entry (entries scores) -> 0 <= snd entry <= 1) ->
  forall entry,
    In entry (entries (normalize scores (fold_left Qplus (values scores) 0))) ->
    0 <= snd entry <= 1.
Proof.
  intros H.
  pose proof (H _ (or_introl eq_refl)) as Hh.
  pose proof (H _ (or_intror (or_introl eq_refl))) as Hs.
  pose proof (H _ (or_intror (or_intror (or_introl eq_refl)))) as He.
  pose proof (H _ (or_intror (or_intror (or_intror (or_introl eq_refl)))))
    as Hc.
  pose proof (H _ (or_intror (or_intror (or_intror (or_intror
                     (or_introl eq_refl)))))) as Ha.
  pose proof (H _ (or_intror (or_intror (or_intror (or_intror
                     (or_intror (or_introl eq_refl))))))) as Hn.
  clear H. destruct scores as [h s e c a n].
  cbn [snd e_happy e_sad e_energetic e_calm e_anxious e_nostalgic] in *.
  unfold values, entries. cbn [map fold_left snd e_happy e_sad e_energetic
                                 e_calm e_anxious e_nostalgic].
  set (total := 0 + h + s + e + c + a + n).
  assert (Etotal : total == 0 + h + s + e + c + a + n) by reflexivity.
  clearbody total. unfold normalize.
  cbn [e_happy e_sad e_energetic e_calm e_anxious e_nostalgic].
  destruct (Qgtb total 0) eqn:Egt.
  - apply Qgtb_true in Egt.
    cbn [entries e_happy e_sad e_energetic e_calm e_anxious e_nostalgic].
    intros entry Hin. cbn [In] in Hin.
    repeat (destruct Hin as [<- | Hin];
            [cbn [snd]; apply div_unit; [lra | lra | assumption]|]).
    contradiction.
  - apply Qgtb_false in Egt.
    cbn [entries e_happy e_sad e_energetic e_calm e_anxious e_nostalgic].
    intros entry Hin. cbn [In] in Hin.
    repeat (destruct Hin as [<- | Hin]; [cbn [snd]; lra|]).
    contradiction.
Qed.

(** The reduction keeps the last of the entries of the greatest score. *)
Lemma fold_greater_split (rest : list (string * Q)) (first : string * Q) :
  exists before after,
    first :: rest = (before ++ fold_left greater rest first :: after)%list /\
    Forall (fun entry => snd entry <= snd (fold_left greater rest first))
      before /\
    Forall (fun entry => snd entry < snd (fold_left greater rest first))
      after /\
    snd first <= snd (fold_left greater rest first).
Proof.
  revert first. induction rest as [|b rest IH]; intros first.
  - exists [], []. cbn. repeat split; try constructor. lra.
  - cbn [fold_left]. destruct (Qgtb (snd first) (snd b)) eqn:Egt.
    + replace (greater first b) with first
        by (unfold greater; rewrite Egt; reflexivity).
      apply Qgtb_true in Egt.
      destruct (IH first) as (before & after & E & Hb & Ha & Hf).
      set (entry := fold_left greater rest first) in *. clearbody entry.
      destruct before as [|x before].
      * cbn [app] in E. injection E as E1 E2.
        exists [], (b :: rest). cbn [app]. subst entry.
        split; [reflexivity|]. split; [constructor|]. split; [|lra].
        constructor; [assumption|]. rewrite E2. assumption.
      * cbn [app] in E. injection E as E1 E2. subst x.
        exists (first :: b :: before), after. cbn [app]. rewrite E2.
        split; [reflexivity|]. inversion Hb; subst.
        split; [|split; assumption].
        constructor; [assumption|]. constructor; [lra | assumption].
    + replace (greater first b) with b
        by (unfold greater; rewrite Egt; reflexivity).
      apply Qgtb_false in Egt.
      destruct (IH b) as (before & after & E & Hb & Ha & Hf).
      set (entry := fold_left greater rest b) in *. clearbody entry.
      exists (first :: before), after. cbn [app]. rewrite E.
      split; [reflexivity|]. split; [|split; [assumption | lra]].
      constructor; [lra | assumption].
Qed.

Lemma fallbackMoodAnalysis_scores (text lowerText : string) :
  forall entry,
    In entry (entries (emotions (fallbackMoodAnalysis text lowerText))) ->
    0 <= snd entry <= 1.
Proof.
  unfold fallbackMoodAnalysis. cbn [emotions]. apply normalize_unit.
  intros entry Hin. cbn [entries In e_happy e_sad e_energetic e_calm
                           e_anxious e_nostalgic] in Hin.
  repeat (destruct Hin as [<- | Hin];
          [cbn [snd]; apply keywordScore_unit; discriminate|]).
  contradiction.
Qed.

Lemma entries_keys (scores : Emotions) :
  map fst (entries scores) = requiredEmotions.
Proof. reflexivity. Qed.

Lemma fallbackMoodAnalysis_primaryEmotion (text lowerText : string) :
  let m := fallbackMoodAnalysis text lowerText in
  exists before v after,
    entries (emotions m) = (before ++ (primaryEmotion m, v) :: after)%list /\
    Forall (fun entry => snd entry <= v) before /\
    Forall (fun entry => snd entry < v) after.
Proof.
  intros m. unfold m, fallbackMoodAnalysis. cbn [emotions primaryEmotion].
  set (scores' := normalize _ _). clearbody scores'.
  unfold entries. cbn [reduce_greater].
  match goal with
  | |- context [fold_left greater ?rest ?first] =>
      destruct (fold_greater_split rest first)
        as (before & after & E & Hb & Ha & _);
      set (entry := fold_left greater rest first) in *
  end.
  exists before, (snd entry), after.
  rewrite <- surjective_pairing. repeat split; assumption.
Qed.

Lemma fallbackMoodAnalysis_confidence (text lowerText : string) :
  0 < confidence (fallbackMoodAnalysis text lowerText) <= 0.8.
Proof.
  unfold fallbackMoodAnalysis. cbn [confidence].
  set (total := fold_left Qplus _ 0). clearbody total.
  destruct (Qgtb total 0) eqn:Egt; [|lra].
  apply Qgtb_true in Egt.
  destruct (Q.min_spec total 0.8) as [[H E] | [H E]]; rewrite E; lra.
Qed.

Lemma fallbackMoodAnalysis_valid (text lowerText : string) :
  validMoodData (MoodAnalysis_json (fallbackMoodAnalysis text lowerText)).
Proof.
  set (m := fallbackMoodAnalysis text lowerText).
  pose proof (fallbackMoodAnalysis_scores text lowerText) as Hscores.
  pose proof (fallbackMoodAnalysis_confidence text lowerText) as Hconf.
  destruct (fallbackMoodAnalysis_primaryEmotion text lowerText)
    as (before & v & after & E & _ & _).
  fold m in Hscores, Hconf, E.
  unfold MoodAnalysis_json. eexists _, (primaryEmotion m), _, _.
  split; [reflexivity|]. split; [reflexivity|]. split.
  { rewrite <- (entries_keys (emotions m)), E, map_app. apply in_or_app.
    right. left. reflexivity. }
  split; [reflexivity|]. split; [|split; [reflexivity|cbn [inUnit]; lra]].
  intros emotion Hin. cbn [requiredEmotions In] in Hin.
  repeat (destruct Hin as [<- | Hin];
          [eexists; split; [reflexivity|];
           cbn [inUnit]; apply (Hscores (_, _)); cbn [entries In]; tauto|]).
  contradiction.
Qed.

(** X14. The fallback analysis of any text has the shape of a mood
    analysis: it keeps the text, its six scores are between 0 and 1, its
    confidence is above 0 and at most 0.8, and its primary emotion is the
    last, in the order happy, sad, energetic, calm, anxious, nostalgic, of
    the emotions of the greatest score. [validateMoodAnalysis] accepts
    it. *)
Theorem getFallbackMoodAnalysis_spec (toLowerCase : string -> string)
    (text : string) (w : World) :
  let m := getFallbackMoodAnalysis toLowerCase text in
  rawText m = text /\
  (forall entry, In entry (entries (emotions m)) -> 0 <= snd entry <= 1) /\
  0 < confidence m <= 0.8 /\
  (exists before v after,
      entries (emotions m) = (before ++ (primaryEmotion m, v) :: after)%list /\
      Forall (fun entry => snd entry <= v) before /\
      Forall (fun entry => snd entry < v) after) /\
  validateMoodAnalysis (MoodAnalysis_json m) w = (Ok tt, w).
Proof.
  intros m. unfold m, getFallbackMoodAnalysis.
  split; [reflexivity|].
  split; [apply fallbackMoodAnalysis_scores|].
  split; [apply fallbackMoodAnalysis_confidence|].
  split; [apply fallbackMoodAnalysis_primaryEmotion|].
  apply validateMoodAnalysis_run, fallbackMoodAnalysis_valid.
Qed.

(** X15. When the text holds none of the keywords, the fallback analysis
    is calm: the score of calm is 1, the other scores are 0 and the
    confidence is 0.3. *)
Theorem getFallbackMoodAnalysis_no_keyword (toLowerCase : string -> string)
    (text : string) :
  noKeyword (toLowerCase text) ->
  let m := getFallbackMoodAnalysis toLowerCase text in
  primaryEmotion m = "calm"%string /\
  confidence m = 0.3 /\
  e_calm (emotions m) == 1 /\
  e_happy (emotions m) == 0 /\ e_sad (emotions m) == 0 /\
  e_energetic (emotions m) == 0 /\ e_anxious (emotions m) == 0 /\
  e_nostalgic (emotions m) == 0.
Proof.
  intros Hnone m. unfold m, getFallbackMoodAnalysis, fallbackMoodAnalysis.
  set (lowerText := toLowerCase text) in *.
  assert (Hh : keywordScore lowerText happyWords == 0).
  { apply keywordScore_none. intros k Hk. apply Hnone.
    apply in_or_app. left. assumption. }
  assert (Hs : keywordScore lowerText sadWords == 0).
  { apply keywordScore_none. intros k Hk. apply Hnone.
    apply in_or_app. right. apply in_or_app. left. assumption. }
  assert (He : keywordScore lowerText energeticWords == 0).
  { apply keywordScore_none. intros k Hk. apply Hnone.
    do 2 (apply in_or_app; right). apply in_or_app. left. assumption. }
  assert (Hc : keywordScore lowerText calmWords == 0).
  { apply keywordScore_none. intros k Hk. apply Hnone.
    do 3 (apply in_or_app; right). apply in_or_app. left. assumption. }
  assert (Ha : keywordScore lowerText anxiousWords == 0).
  { apply keywordScore_none. intros k Hk. apply Hnone.
    do 4 (apply in_or_app; right). apply in_or_app. left. assumption. }
  assert (Hn : keywordScore lowerText nostalgicWords == 0).
  { apply keywordScore_none. intros k Hk. apply Hnone.
    do 5 (apply in_or_app; right). assumption. }
  set (h := keywordScore lowerText happyWords) in *.
  set (s := keywordScore lowerText sadWords) in *.
  set (e := keywordScore lowerText energeticWords) in *.
  set (c := keywordScore lowerText calmWords) in *.
  set (a := keywordScore lowerText anxiousWords) in *.
  set (n := keywordScore lowerText nostalgicWords) in *.
  clearbody h s e c a n.
  unfold values, entries. cbn [map fold_left snd e_happy e_sad e_energetic
                                 e_calm e_anxious e_nostalgic].
  assert (Egt : Qgtb (0 + h + s + e + c + a + n) 0 = false)
    by (apply Qgtb_false; lra).
  unfold normalize. rewrite Egt.
  cbn [primaryEmotion confidence emotions e_happy e_sad e_energetic e_calm
         e_anxious e_nostalgic reduce_greater fold_left].
  assert (G1 : Qgtb h s = false) by (apply Qgtb_false; lra).
  assert (G2 : Qgtb s e = false) by (apply Qgtb_false; lra).
  assert (G3 : Qgtb e 1.0 = false) by (apply Qgtb_false; lra).
  assert (G4 : Qgtb 1.0 a = true) by (apply Qgtb_true; lra).
  assert (G5 : Qgtb 1.0 n = true) by (apply Qgtb_true; lra).
  unfold greater. cbn [snd fst]. rewrite G1. cbn [snd fst]. rewrite G2.
  cbn [snd fst]. rewrite G3. cbn [snd fst]. rewrite G4. cbn [snd fst].
  rewrite G5. cbn [fst].
  repeat split; try assumption; reflexivity.
Qed.

Lemma getFallbackMoodAnalysis_no_keyword_witness :
  noKeyword "hello" /\
  primaryEmotion (getFallbackMoodAnalysis (fun s => s) "hello")
  = "calm"%string.
Proof.
  assert (H : noKeyword "hello").
  { intros keyword Hin. cbn [app happyWords sadWords energeticWords calmWords
                               anxiousWords nostalgicWords In] in Hin.
    repeat (destruct Hin as [<- | Hin]; [reflexivity|]). contradiction. }
  split; [exact H|].
  exact (proj1 (getFallbackMoodAnalysis_no_keyword (fun s => s) "hello" H)).
Defined.

Lemma validateMoodAnalysis_spec_witness :
  validateMoodAnalysis (MoodAnalysis_json happyMood) (mkWorld 0 [] [])
  = (Ok tt, mkWorld 0 [] []) /\
  exists e,
    validateMoodAnalysis
      (JObject [("primaryEmotion"%string, JString "joyful")])
      (mkWorld 0 [] [])
    = (Throw e, mkWorld 0 [] []).
Proof.
  split.
  - apply (validateMoodAnalysis_spec (MoodAnalysis_json happyMood)
             (mkWorld 0 [] [])).
    unfold MoodAnalysis_json, happyMood. eexists _, _, _, _.
    split; [reflexivity|]. split; [reflexivity|].
    split; [left; reflexivity|]. split; [reflexivity|].
    split; [|split; [reflexivity | cbv; split; discriminate]].
    intros emotion Hin. cbn [requiredEmotions In] in Hin.
    repeat (destruct Hin as [<- | Hin];
            [eexists; split; [reflexivity|]; cbv; split; discriminate|]).
    contradiction.
  - apply (validateMoodAnalysis_spec
             (JObject [("primaryEmotion"%string, JString "joyful")])
             (mkWorld 0 [] [])).
    intros (properties & pe & scores & c & [= <-] & _ & _ & C & _).
    discriminate C.
Defined.

(** ** The analysis of a mood *)

Lemma assoc_set_property_same (key : string) (value : json)
    (properties : list (string * json)) :
  assoc key (set_property key value properties) = Some value.
Proof.
  induction properties as [|[k x] rest IH]; cbn [set_property assoc].
  - rewrite String.eqb_refl. reflexivity.
  - destruct (String.eqb k key) eqn:E; cbn [assoc].
    + rewrite String.eqb_sym, E. reflexivity.
    + rewrite String.eqb_sym, E. assumption.
Qed.

Lemma assoc_set_property_other (k key : string) (value : json)
    (properties : list (string * json)) :
  k <> key ->
  assoc k (set_property key value properties) = assoc k properties.
Proof.
  intros Hne. apply String.eqb_neq in Hne.
  induction properties as [|[k' x] rest IH]; cbn [set_property assoc].
  - rewrite Hne. reflexivity.
  - destruct (String.eqb k' key) eqn:E; cbn [assoc].
    + apply String.eqb_eq in E. subst k'. rewrite Hne. reflexivity.
    + rewrite IH. reflexivity.
Qed.

Lemma validMoodData_set_rawText (value : json)
    (properties : list (string * json)) :
  validMoodData (JObject properties) ->
  validMoodData (JObject (set_property "rawText" value properties)).
Proof.
  intros (props & pe & scores & c & [= <-] & Hpe & Hin & Hem & Hall & Hc
          & Hunit).
  exists (set_property "rawText" value properties), pe, scores, c.
  rewrite !assoc_set_property_other by discriminate.
  repeat split; assumption.
Qed.

Lemma usable_unique (completion : string -> result (option string))
    (JSON_parse : string -> result json) (text : string)
    (moodData moodData' : json) :
  usable completion JSON_parse text moodData ->
  usable completion JSON_parse text moodData' ->
  moodData = moodData'.
Proof.
  intros (content & E1 & _ & E2 & _) (content' & E1' & _ & E2' & _).
  rewrite E1 in E1'. injection E1' as <-. rewrite E2 in E2'.
  injection E2' as <-. reflexivity.
Qed.

Lemma analyzeMood_run (toLowerCase : string -> string)
    (completion : string -> result (option string))
    (JSON_parse : string -> result json) (text : string) (w : World) :
  (exists moodData,
      usable completion JSON_parse text moodData /\
      analyzeMood toLowerCase completion JSON_parse text w =
      (Ok (JObject
             (set_property "rawText" (JString text) (spread moodData))),
       w)) \/
  ((forall moodData, ~ usable completion JSON_parse text moodData) /\
   exists e,
     analyzeMood toLowerCase completion JSON_parse text w =
     (Ok (MoodAnalysis_json (getFallbackMoodAnalysis toLowerCase text)),
      {| random_pos := random_pos w;
         requests := requests w;
         console :=
           (console w ++ ["Error analyzing mood: " ++ message_of e]%string)
             %list |})).
Proof.
  unfold analyzeMood, try_catch.
  destruct (completion text) as [[content|]|e] eqn:Ec.
  3: { right. split.
       - intros moodData (content & C & _). congruence.
       - exists e. unfold bind at 1, lift at 1. reflexivity. }
  2: { right. split.
       - intros moodData (content & C & _). congruence.
       - eexists. unfold bind at 1, lift at 1. reflexivity. }
  destruct content as [|ch content].
  { right. split.
    - intros moodData (content & C & Hne & _).
      rewrite Ec in C. injection C as <-. apply Hne. reflexivity.
    - eexists. unfold bind at 1, lift at 1. reflexivity. }
  rewrite (bind_Ok _ _ w w (Some (String ch content))) by reflexivity.
  destruct (JSON_parse (String ch content)) as [moodData|e] eqn:Ep.
  2: { right. split.
       - intros moodData (content' & C & _ & C' & _).
         rewrite Ec in C. injection C as <-. congruence.
       - exists e. unfold bind at 1, lift at 1. reflexivity. }
  rewrite (bind_Ok _ _ w w moodData) by reflexivity.
  destruct (validateMoodAnalysis_run moodData w) as [[outcome Hrun] Hiff].
  destruct outcome as [[]|e].
  - left. exists moodData. split.
    + exists (String ch content). repeat split; try assumption.
      * discriminate.
      * apply Hiff. assumption.
    + rewrite (bind_Ok _ _ w w tt Hrun). reflexivity.
  - right. split.
    + intros moodData' (content' & C & _ & C' & Hvalid).
      rewrite Ec in C. injection C as <-. rewrite Ep in C'.
      injection C' as <-. apply Hiff in Hvalid. congruence.
    + exists e. rewrite (bind_Throw _ _ w w e Hrun). reflexivity.
Qed.

(** X16. [analyzeMood] never throws, and every analysis it returns has the
    shape [validateMoodAnalysis] accepts, with the text as [rawText].
    When the model answered with a non-empty content that parses as data
    of that shape, the analysis is that data with [rawText] set, and
    nothing is logged. In every other case (the call failed, the content
    is missing or empty, it does not parse, or the data is not of the
    shape) the error is logged and the analysis is the fallback one. *)
Theorem analyzeMood_spec (toLowerCase : string -> string)
    (completion : string -> result (option string))
    (JSON_parse : string -> result json) (text : string) (w : World) :
  (forall moodData,
      usable completion JSON_parse text moodData ->
      analyzeMood toLowerCase completion JSON_parse text w =
      (Ok (JObject
             (set_property "rawText" (JString text) (spread moodData))),
       w)) /\
  ((forall moodData, ~ usable completion JSON_parse text moodData) ->
   exists e,
     analyzeMood toLowerCase completion JSON_parse text w =
     (Ok (MoodAnalysis_json (getFallbackMoodAnalysis toLowerCase text)),
      {| random_pos := random_pos w;
         requests := requests w;
         console :=
           (console w ++ ["Error analyzing mood: " ++ message_of e]%string)
             %list |})) /\
  exists properties w',
    analyzeMood toLowerCase completion JSON_parse text w =
    (Ok (JObject properties), w') /\
    validMoodData (JObject properties) /\
    assoc "rawText"%string properties = Some (JString text).
Proof.
  destruct (analyzeMood_run toLowerCase completion JSON_parse text w)
    as [(moodData & Husable & E) | (Hnone & e & E)].
  - split; [|split].
    + intros moodData' Husable'.
      rewrite (usable_unique _ _ _ _ _ Husable' Husable). assumption.
    + intros Hnone. exfalso. apply (Hnone moodData). assumption.
    + eexists _, w. split; [exact E|].
      destruct Husable as (content & _ & _ & _ & Hvalid).
      split; [|apply assoc_set_property_same].
      destruct Hvalid as (props & pe & scores & c & -> & Hrest).
      apply validMoodData_set_rawText. cbn [spread].
      exists props, pe, scores, c. split; [reflexivity | assumption].
  - split; [|split].
    + intros moodData Husable. exfalso. apply (Hnone moodData). assumption.
    + intros _. exists e. assumption.
    + eexists _, _. split; [exact E|].
      split; [apply fallbackMoodAnalysis_valid | reflexivity].
Qed.

Lemma analyzeMood_spec_witness :
  (exists properties,
      analyzeMood (fun s => s)
        (fun _ => Ok (Some "{...}"%string))
        (fun _ => Ok (MoodAnalysis_json happyMood))
        "Great day" (mkWorld 0 [] [])
      = (Ok (JObject properties), mkWorld 0 [] []) /\
      assoc "rawText"%string properties = Some (JString "Great day")) /\
  exists e,
    analyzeMood (fun s => s)
      (fun _ => Throw (Error "Connection error."))
      (fun _ => Ok JNull)
      "Great day" (mkWorld 0 [] [])
    = (Ok (MoodAnalysis_json (getFallbackMoodAnalysis (fun s => s)
                                "Great day")),
       mkWorld 0 [] ["Error analyzing mood: " ++ message_of e]%string).
Proof.
  split.
  - eexists. split.
    + apply (analyzeMood_spec (fun s => s)
               (fun _ => Ok (Some "{...}"%string))
               (fun _ => Ok (MoodAnalysis_json happyMood))
               "Great day" (mkWorld 0 [] [])).
      exists "{...}"%string.
      split; [reflexivity|]. split; [discriminate|]. split; [reflexivity|].
      unfold MoodAnalysis_json, happyMood. eexists _, _, _, _.
      split; [reflexivity|]. split; [reflexivity|].
      split; [left; reflexivity|]. split; [reflexivity|].
      split; [|split; [reflexivity | cbv; split; discriminate]].
      intros emotion Hin. cbn [requiredEmotions In] in Hin.
      repeat (destruct Hin as [<- | Hin];
              [eexists; split; [reflexivity|]; cbv; split; discriminate|]).
      contradiction.
    + reflexivity.
  - apply (analyzeMood_spec (fun s => s)
             (fun _ => Throw (Error "Connection error."))
             (fun _ => Ok JNull)
             "Great day" (mkWorld 0 [] [])).
    intros moodData (content & C & _). discriminate C.
Defined.
